(** * Oneof code generation for the Rust backend (compiler/rust/oneof.cc)

    A shallow embedding of the generator that turns a oneof group into three
    Rust enums, the dispatching accessors, the extern declaration and the C++
    thunk, together with the properties its specification states.

    The generator writes through [ctx.Emit(vars, format)].  A call is kept here
    as the value [Emit vars format]; a callback bound to a variable is kept as
    the calls it makes when it is invoked.  [Printer.expand] gives such a call
    its text by substituting the [$name$] placeholders of the format. *)

From Stdlib Require Import ZArith List String Ascii Bool Lia FinFun.
From Stdlib Require Import DecimalString DecimalZ DecimalPos.
Import ListNotations.

Open Scope list_scope.
Open Scope string_scope.

(** ** Results of code that may abort *)

(** [ABSL_LOG(FATAL)] ends the process: a computation either returns or is
    fatal with the logged message. *)
Inductive Result (A : Type) : Type :=
| Ok (a : A)
| Fatal (msg : string).

Arguments Ok {A} a.
Arguments Fatal {A} msg.

Definition bind {A B : Type} (r : Result A) (k : A -> Result B) : Result B :=
  match r with
  | Ok a => k a
  | Fatal msg => Fatal msg
  end.

Notation "x <- c ;; k" := (bind c (fun x => k))
  (at level 61, c at next level, right associativity).

(** ** Descriptors *)

(** [FieldDescriptor::Type] is an enum declared in descriptor.h; the generator
  only passes its values on to [GetRustFieldType], so a value is kept as the
  integer it holds. *)
Definition FieldType := Z.

Module FieldDescriptor.
(** What the generator reads of a field: [name()], [number()], [type()],
    [type_name()] and [options().has_ctype()]. *)
Record t : Type := Build {
  name : string;
  number : Z;
  type : FieldType;
  type_name : string;
  has_ctype : bool
}.
End FieldDescriptor.

Module Descriptor.
(** The message that contains the oneof; only handed to
    [cpp::QualifiedClassName]. *)
Record t : Type := Build {
  full_name : string
}.
End Descriptor.

Module OneofDescriptor.
(** [field_count()] is the length of [fields] and [field(i)] its i-th
    element, in declaration order. *)
Record t : Type := Build {
  name : string;
  containing_type : Descriptor.t;
  fields : list FieldDescriptor.t
}.
End OneofDescriptor.

(** The enumerators of [RustFieldType] that the two switches name.  A C++ enum
  object can also hold a value of its underlying type that equals none of
  them; [Unlisted] stands for such a value, for which no case of a switch
  is taken. *)
Inductive RustFieldType : Type :=
| INT32 | INT64 | UINT32 | UINT64 | FLOAT | DOUBLE | BOOL
| BYTES | STRING | MESSAGE | ENUM
| Unlisted (raw : Z).

(** Modelled from the spec: accessor_case.h is not among the sources.  The
  code names one enumerator, [VIEW], the binding context that does not
  support mutation; [OWNED] and [MUT] are the contexts that do. *)
Inductive AccessorCase : Type := OWNED | MUT | VIEW.

Definition AccessorCase_is_VIEW (c : AccessorCase) : bool :=
match c with VIEW => true | _ => false end.

(** ** The collaborators the generator calls *)

(** Naming, type paths and the kind of a field come from other translation
  units (naming.h, rust_field_type.h, context.h, cpp/helpers.h).  They are
  the interface the generator is written against. *)
Class Externals : Type := {
Context : Type;
GetRustFieldType : FieldType -> RustFieldType;
RsTypePath : Context -> FieldDescriptor.t -> string;
OneofCaseRsName : FieldDescriptor.t -> string;
OneofViewEnumRsName : OneofDescriptor.t -> string;
OneofMutEnumRsName : OneofDescriptor.t -> string;
OneofCaseEnumRsName : OneofDescriptor.t -> string;
RsSafeName : string -> string;
ThunkName : Context -> OneofDescriptor.t -> string -> string;
QualifiedClassName : Descriptor.t -> string
}.

(** Modelled from the spec: the overload of [GetRustFieldType] that takes a
  field descriptor is declared in rust_field_type.h, which is not among the
  sources.  The spec gives a member field one kind, so the overload is the
  kind of the field's type. *)
Definition GetRustFieldType_of_field `{Externals} (field : FieldDescriptor.t)
: RustFieldType :=
GetRustFieldType (FieldDescriptor.type field).

(** [std::to_string] of an int: its decimal notation. *)
Definition to_string (n : Z) : string :=
  NilZero.string_of_int (Z.to_int n).

(** ** The text emitter *)

(** A call [ctx.Emit(vars, format)].  A variable is bound to a text or to a
    callback; a callback is kept as what it does when the emitter invokes
    it: the calls to [ctx.Emit] it makes in order, or a fatal end. *)
Inductive Sub : Type :=
| Text (s : string)
| Callback (body : Result (list EmitCall))
with EmitCall : Type :=
| Emit (vars : list (string * Sub)) (format : string).

Module Printer.

(** Modelled from the spec: the text-emission engine behind [ctx.Emit]
    (io/printer.h) is an external collaborator and not among the sources.
    It is taken as plain substitution: a format is cut at its dollar signs
    into literal text and variable names, a variable is looked up in the
    variable frames from the innermost call outwards, a text is copied and a
    callback is invoked where its variable stands.  A callback that no format
    mentions is never invoked.  The layout pass of the engine (indentation
    and blank lines) is left out. *)
Inductive Chunk : Type :=
| Lit (s : string)
| Var (v : string).

Fixpoint tokenize_from (in_var : bool) (acc format : string) : list Chunk :=
  match format with
  | EmptyString => [if in_var then Lit ("$" ++ acc) else Lit acc]
  | String c rest =>
      if Ascii.eqb c "$"
      then (if in_var then Var acc else Lit acc)
             :: tokenize_from (negb in_var) "" rest
      else tokenize_from in_var (acc ++ String c "") rest
  end.

Definition tokenize (format : string) : list Chunk :=
  tokenize_from false "" format.

Definition Frame : Type := list (string * Sub).

Fixpoint lookup_frame (v : string) (frame : Frame) : option Sub :=
  match frame with
  | [] => None
  | (k, sub) :: rest => if String.eqb k v then Some sub else lookup_frame v rest
  end.

Fixpoint lookup (v : string) (frames : list Frame) : option Sub :=
  match frames with
  | [] => None
  | frame :: outer =>
      match lookup_frame v frame with
      | Some sub => Some sub
      | None => lookup v outer
      end
  end.

(** The outcome of an expansion bounded by a nesting depth: [None] when the
    bound is reached before the text is complete. *)
Definition Run (A : Type) : Type := option (Result A).

Fixpoint concat_runs (runs : list (Run string)) : Run string :=
  match runs with
  | [] => Some (Ok "")
  | None :: _ => None
  | Some (Fatal msg) :: _ => Some (Fatal msg)
  | Some (Ok s) :: rest =>
      match concat_runs rest with
      | Some (Ok t) => Some (Ok (s ++ t))
      | other => other
      end
  end.

Definition expand_body (expand_call : EmitCall -> Run string)
    (body : Result (list EmitCall)) : Run string :=
  match body with
  | Fatal msg => Some (Fatal msg)
  | Ok calls => concat_runs (map expand_call calls)
  end.

Definition expand_chunk (expand_call : EmitCall -> Run string)
    (frames : list Frame) (c : Chunk) : Run string :=
  match c with
  | Lit s => Some (Ok s)
  | Var v =>
      match lookup v frames with
      | None => Some (Fatal ("undefined variable: " ++ v))
      | Some (Text s) => Some (Ok s)
      | Some (Callback body) => expand_body expand_call body
      end
  end.

(** The text of one call, with [depth] bounding how deep calls made by
    callbacks may nest. *)
Fixpoint expand (depth : nat) (frames : list Frame) (call : EmitCall)
  : Run string :=
  match depth with
  | O => None
  | S depth' =>
      match call with
      | Emit vars format =>
          let frames' := vars :: frames in
          concat_runs
            (map (expand_chunk (expand depth' frames') frames')
                 (tokenize format))
      end
  end.

(** The printer a context writes to: the text emitted so far and the
    variable frames of the calls that enclose the generator. *)
Record t : Type := Build {
  output : string;
  frames : list Frame
}.

(** Running a sequence of top-level calls appends their text. *)
Definition run (depth : nat) (calls : list EmitCall) (p : t) : Run t :=
  match concat_runs (map (expand depth (frames p)) calls) with
  | None => None
  | Some (Fatal msg) => Some (Fatal msg)
  | Some (Ok text) => Some (Ok (Build (output p ++ text) (frames p)))
  end.

End Printer.

(** The body of a loop over the fields of a oneof, in declaration order:
    the calls of each round one after the other; a fatal round ends all. *)
Fixpoint for_each_field (fields : list FieldDescriptor.t)
    (round : FieldDescriptor.t -> Result (list EmitCall))
  : Result (list EmitCall) :=
  match fields with
  | [] => Ok []
  | field :: rest =>
      calls <- round field ;;
      more <- for_each_field rest round ;;
      Ok (calls ++ more)%list
  end.

(** ** The type mappers *)

Section TypeMappers.
Context `{Externals}.

(** A user-friendly rust type for a view of this field with lifetime 'msg.
    The empty string says that the field is not supported. *)
Definition RsTypeNameView (ctx : Context) (field : FieldDescriptor.t)
  : Result string :=
  if FieldDescriptor.has_ctype field then Ok ""
  else
    match GetRustFieldType (FieldDescriptor.type field) with
    | INT32 | INT64 | UINT32 | UINT64 | FLOAT | DOUBLE | BOOL =>
        Ok (RsTypePath ctx field)
    | BYTES => Ok "&'msg [u8]"
    | STRING => Ok "&'msg ::__pb::ProtoStr"
    | MESSAGE => Ok ("::__pb::View<'msg, " ++ RsTypePath ctx field ++ ">")
    | ENUM => Ok ("::__pb::View<'msg, " ++ RsTypePath ctx field ++ ">")
    | Unlisted _ =>
        Fatal ("Unexpected field type: " ++ FieldDescriptor.type_name field)
    end.

(** A user-friendly rust type for a mutator of this field with lifetime
    'msg. *)
Definition RsTypeNameMut (ctx : Context) (field : FieldDescriptor.t)
  : Result string :=
  if FieldDescriptor.has_ctype field then Ok ""
  else
    match GetRustFieldType_of_field field with
    | INT32 | INT64 | UINT32 | UINT64 | FLOAT | DOUBLE | BOOL =>
        Ok ("::__pb::PrimitiveMut<'msg, " ++ RsTypePath ctx field ++ ">")
    | BYTES => Ok "::__pb::BytesMut<'msg>"
    | STRING => Ok "::__pb::ProtoStrMut<'msg>"
    | MESSAGE => Ok ("::__pb::Mut<'msg, " ++ RsTypePath ctx field ++ ">")
    | ENUM => Ok ("::__pb::Mut<'msg, " ++ RsTypePath ctx field ++ ">")
    | Unlisted _ =>
        Fatal ("Unexpected field type: " ++ FieldDescriptor.type_name field)
    end.

End TypeMappers.

(** ** The generators *)

Definition empty (s : string) : bool :=
  match s with
  | EmptyString => true
  | String _ _ => false
  end.

(** oneof.cc, lines 159-160. *)
Definition view_field_format : string :=
"$name$($type$) = $number$,
                ".

(** oneof.cc, lines 174-175. *)
Definition mut_field_format : string :=
"$name$($type$) = $number$,
                ".

(** oneof.cc, lines 182-205. *)
Definition union_enums_format : string :=
"
      #[non_exhaustive]
      #[derive(Debug, Clone, Copy)]
      #[allow(dead_code)]
      #[repr(isize)]
      pub enum $view_enum_name$<'msg> {
        $view_fields$

        #[allow(non_camel_case_types)]
        not_set(std::marker::PhantomData<&'msg ()>) = 0
      }

      #[non_exhaustive]
      #[derive(Debug)]
      #[allow(dead_code)]
      #[repr(isize)]
      pub enum $mut_enum_name$<'msg> {
        $mut_fields$

        #[allow(non_camel_case_types)]
        not_set(std::marker::PhantomData<&'msg ()>) = 0
      }

      ".

(** oneof.cc, lines 216-217. *)
Definition case_format : string :=
"$name$ = $number$,
                ".

(** oneof.cc, lines 220-231. *)
Definition case_enum_format : string :=
"
      #[repr(C)]
      #[derive(Debug, Copy, Clone, PartialEq, Eq)]
      #[allow(dead_code)]
      pub(super) enum $case_enum_name$ {
        $cases$

        #[allow(non_camel_case_types)]
        not_set = 0
      }

      ".

Section Generators.
Context `{Externals}.

(** The callback bound to [view_fields]: one call for each field whose view
    type is not empty. *)
Definition view_fields (ctx : Context) (oneof : OneofDescriptor.t)
  : Result (list EmitCall) :=
  for_each_field (OneofDescriptor.fields oneof) (fun field =>
    rs_type <- RsTypeNameView ctx field ;;
    if empty rs_type then Ok []
    else Ok [Emit [("name", Text (OneofCaseRsName field));
                   ("type", Text rs_type);
                   ("number", Text (to_string (FieldDescriptor.number field)))]
                  view_field_format]).

(** The callback bound to [mut_fields]. *)
Definition mut_fields (ctx : Context) (oneof : OneofDescriptor.t)
  : Result (list EmitCall) :=
  for_each_field (OneofDescriptor.fields oneof) (fun field =>
    rs_type <- RsTypeNameMut ctx field ;;
    if empty rs_type then Ok []
    else Ok [Emit [("name", Text (OneofCaseRsName field));
                   ("type", Text rs_type);
                   ("number", Text (to_string (FieldDescriptor.number field)))]
                  mut_field_format]).

(** The callback bound to [cases]: one call for every field. *)
Definition cases (oneof : OneofDescriptor.t) : Result (list EmitCall) :=
  for_each_field (OneofDescriptor.fields oneof) (fun field =>
    Ok [Emit [("name", Text (OneofCaseRsName field));
              ("number", Text (to_string (FieldDescriptor.number field)))]
             case_format]).

(** The first call of [GenerateOneofDefinition]: the view enum and the mut
    enum. *)
Definition union_enums (ctx : Context) (oneof : OneofDescriptor.t)
  : EmitCall :=
  Emit [("view_enum_name", Text (OneofViewEnumRsName oneof));
        ("mut_enum_name", Text (OneofMutEnumRsName oneof));
        ("view_fields", Callback (view_fields ctx oneof));
        ("mut_fields", Callback (mut_fields ctx oneof))]
       union_enums_format.

(** The second call of [GenerateOneofDefinition]: the case enum. *)
Definition case_enum (oneof : OneofDescriptor.t) : EmitCall :=
  Emit [("case_enum_name", Text (OneofCaseEnumRsName oneof));
        ("cases", Callback (cases oneof))]
       case_enum_format.

Definition GenerateOneofDefinition (ctx : Context) (oneof : OneofDescriptor.t)
  : list EmitCall :=
  [union_enums ctx oneof; case_enum oneof].

End Generators.

(** oneof.cc, lines 255-258. *)
Definition view_case_format : string :=
"
                $Msg$_::$case_enum_name$::$case$ =>
                    $Msg$_::$view_enum_name$::$case$(self.$rs_getter$()),
                ".

(** oneof.cc, lines 285-289. *)
Definition mut_case_format : string :=
"
                $Msg$_::$case_enum_name$::$case$ =>
                    $Msg$_::$mut_enum_name$::$case$(
                        self.$rs_mut_getter$().try_into_mut().unwrap()),
               ".

(** oneof.cc, lines 295-302. *)
Definition getter_format : string :=
"
          pub fn $oneof_name$(&self) -> $Msg$_::$view_enum_name$ {
            match unsafe { $case_thunk$(self.raw_msg()) } {
              $view_cases$
              _ => $Msg$_::$view_enum_name$::not_set(std::marker::PhantomData)
            }
          }
          ".

(** oneof.cc, lines 309-316. *)
Definition getter_mut_format : string :=
"
          pub fn $oneof_name$_mut(&mut self) -> $Msg$_::$mut_enum_name$ {
          match unsafe { $case_thunk$(self.raw_msg()) } {
            $mut_cases$
            _ => $Msg$_::$mut_enum_name$::not_set(std::marker::PhantomData)
          }
        }
        ".

(** oneof.cc, lines 318-321. *)
Definition accessors_format : string :=
"
        $getter$
        $getter_mut$
      ".

(** oneof.cc, lines 330-332. *)
Definition extern_c_format : string :=
"
        fn $case_thunk$(raw_msg: $pbi$::RawMessage) -> $Msg$_::$case_enum_rs_name$;
      ".

(** oneof.cc, lines 343-347. *)
Definition thunk_cc_format : string :=
"
        $QualifiedMsg$::$case_enum_name$ $case_thunk$($QualifiedMsg$* msg) {
          return msg->$oneof_name$_case();
        }
      ".

Section Accessors.
Context `{Externals}.

(** The callback bound to [view_cases]: one match arm for each field whose
    view type is not empty. *)
Definition view_cases (ctx : Context) (oneof : OneofDescriptor.t)
  : Result (list EmitCall) :=
  for_each_field (OneofDescriptor.fields oneof) (fun field =>
    rs_type <- RsTypeNameView ctx field ;;
    if empty rs_type then Ok []
    else Ok [Emit [("case", Text (OneofCaseRsName field));
                   ("rs_getter", Text (RsSafeName (FieldDescriptor.name field)));
                   ("type", Text rs_type)]
                  view_case_format]).

(** The callback bound to [mut_cases]. *)
Definition mut_cases (ctx : Context) (oneof : OneofDescriptor.t)
  : Result (list EmitCall) :=
  for_each_field (OneofDescriptor.fields oneof) (fun field =>
    rs_type <- RsTypeNameMut ctx field ;;
    if empty rs_type then Ok []
    else Ok [Emit [("case", Text (OneofCaseRsName field));
                   ("rs_mut_getter", Text (FieldDescriptor.name field ++ "_mut"));
                   ("type", Text rs_type)]
                  mut_case_format]).

(** The callback bound to [getter]. *)
Definition getter : Result (list EmitCall) :=
  Ok [Emit [] getter_format].

(** The callback bound to [getter_mut]: it returns at once for the view
    accessor case. *)
Definition getter_mut (accessor_case : AccessorCase) : Result (list EmitCall) :=
  if AccessorCase_is_VIEW accessor_case then Ok []
  else Ok [Emit [] getter_mut_format].

Definition GenerateOneofAccessors (ctx : Context) (oneof : OneofDescriptor.t)
    (accessor_case : AccessorCase) : list EmitCall :=
  [Emit [("oneof_name", Text (RsSafeName (OneofDescriptor.name oneof)));
         ("view_enum_name", Text (OneofViewEnumRsName oneof));
         ("mut_enum_name", Text (OneofMutEnumRsName oneof));
         ("case_enum_name", Text (OneofCaseEnumRsName oneof));
         ("view_cases", Callback (view_cases ctx oneof));
         ("mut_cases", Callback (mut_cases ctx oneof));
         ("case_thunk", Text (ThunkName ctx oneof "case"));
         ("getter", Callback getter);
         ("getter_mut", Callback (getter_mut accessor_case))]
        accessors_format].

Definition GenerateOneofExternC (ctx : Context) (oneof : OneofDescriptor.t)
  : list EmitCall :=
  [Emit [("case_enum_rs_name", Text (OneofCaseEnumRsName oneof));
         ("case_thunk", Text (ThunkName ctx oneof "case"))]
        extern_c_format].

Definition GenerateOneofThunkCc (ctx : Context) (oneof : OneofDescriptor.t)
  : list EmitCall :=
  [Emit [("oneof_name", Text (OneofDescriptor.name oneof));
         ("case_enum_name", Text (OneofCaseEnumRsName oneof));
         ("case_thunk", Text (ThunkName ctx oneof "case"));
         ("QualifiedMsg",
          Text (QualifiedClassName (OneofDescriptor.containing_type oneof)))]
        thunk_cc_format].

End Accessors.

(** ** The meaning of the generated accessors *)

Module Generated.

(** The text a call binds to a variable. *)
Definition var_text (v : string) (call : EmitCall) : option string :=
  match call with
  | Emit vars _ =>
      match Printer.lookup_frame v vars with
      | Some (Text s) => Some s
      | _ => None
      end
  end.

(** The number a decimal notation stands for. *)
Definition parse_number (s : string) : option Z :=
  option_map Z.of_int (NilZero.int_of_string s).

(** The entry [name = number] of the case enum that a call of the [cases]
    callback writes. *)
Definition entry (call : EmitCall) : option (string * Z) :=
  match var_text "name" call, var_text "number" call with
  | Some n, Some d => option_map (pair n) (parse_number d)
  | _, _ => None
  end.

(** The entries of the case enum: those the callback writes, then the entry
    [not_set = 0] with which the format closes the enum. *)
Definition case_enum_entries (calls : list EmitCall)
  : list (option (string * Z)) :=
  (map entry calls ++ [Some ("not_set", 0%Z)])%list.

(** The variant [name(type) = number] of a union that a call of the
    [view_fields] or [mut_fields] callback writes. *)
Definition variant (call : EmitCall) : option (string * string * Z) :=
  match var_text "name" call, var_text "type" call, var_text "number" call with
  | Some n, Some t, Some d => option_map (pair (n, t)) (parse_number d)
  | _, _, _ => None
  end.

(** The variants of a union: those the callback writes, then the variant
    [not_set] with which the format closes the enum. *)
Definition union_variants (calls : list EmitCall)
  : list (option (string * string * Z)) :=
  (map variant calls
     ++ [Some ("not_set", "std::marker::PhantomData<&'msg ()>", 0%Z)])%list.


(** The discriminant the case enum gives to the entry called [case]. *)
Fixpoint discriminant (entries : list EmitCall) (case : string) : option Z :=
  match entries with
  | [] => None
  | call :: rest =>
      match entry call with
      | Some (n, d) =>
          if String.eqb n case then Some d else discriminant rest case
      | None => discriminant rest case
      end
  end.

(** What a generated accessor returns: the variant [variant] of the union
    around the result of [self.accessor()], or the variant [not_set]; or
    nothing the generated code determines. *)
Inductive Outcome : Type :=
| Wrap (variant accessor : string)
| NotSet
| Undefined.

(** The tag is the discriminant of a value of the case enum: of an entry the
    [cases] callback wrote, or 0, of the closing entry [not_set]. *)
Definition is_discriminant (entries : list EmitCall) (tag : Z) : bool :=
  existsb (fun e => match e with
                    | Some (_, d) => Z.eqb d tag
                    | None => false
                    end)
          (case_enum_entries entries).

(** The arms of the generated [match], tried in the order they were
    emitted.  An arm [CaseEnum::case => Union::case(self.accessor())] is
    taken when the value matched is the entry [case] of the case enum, that
    is when the tag is the discriminant of [case]; the closing arm
    [_ => Union::not_set(..)] of the format takes what no arm before it
    takes. *)
Fixpoint take_arm (entries arms : list EmitCall) (accessor_var : string)
    (tag : Z) : Outcome :=
  match arms with
  | [] => NotSet
  | arm :: rest =>
      match var_text "case" arm, var_text accessor_var arm with
      | Some case, Some accessor =>
          match discriminant entries case with
          | Some d =>
              if Z.eqb d tag then Wrap case accessor
              else take_arm entries rest accessor_var tag
          | None => take_arm entries rest accessor_var tag
          end
      | _, _ => take_arm entries rest accessor_var tag
      end
  end.

(** The generated [match] on what the thunk returns.  The thunk is declared
    to return the case enum, so the match is on a value of that enum: for a
    tag that is the discriminant of no entry the arms determine nothing.  A
    match that has the closing arm alone takes it without looking at the
    value. *)
Definition dispatch (entries arms : list EmitCall) (accessor_var : string)
    (tag : Z) : Outcome :=
  match arms with
  | [] => NotSet
  | _ :: _ =>
      if is_discriminant entries tag
      then take_arm entries arms accessor_var tag
      else Undefined
  end.

Section Accessors.
Context `{Externals}.

(** The generated read accessor [pub fn oneof_name(&self)], as a function of
    the tag the thunk returns. *)
Definition read_accessor (ctx : Context) (oneof : OneofDescriptor.t)
    (tag : Z) : Result Outcome :=
  entries <- cases oneof ;;
  arms <- view_cases ctx oneof ;;
  Ok (dispatch entries arms "rs_getter" tag).

(** The arm the generated mutate accessor [pub fn oneof_name_mut(&mut self)]
    takes for a tag. *)
Definition mutate_accessor (ctx : Context) (oneof : OneofDescriptor.t)
    (tag : Z) : Result Outcome :=
  entries <- cases oneof ;;
  arms <- mut_cases ctx oneof ;;
  Ok (dispatch entries arms "rs_mut_getter" tag).

End Accessors.

(** Modelled from the spec: the native kernel and the per-field mutable
    accessors are external collaborators and not among the sources.  The
    kernel holds the case tag of the oneof and the presence of each field;
    the accessor [name_mut] belongs to the field called [name], and
    [try_into_mut()] on its result succeeds exactly when that field is
    present. *)
Record Kernel : Type := BuildKernel {
  case_tag : Z;
  has_field : FieldDescriptor.t -> bool
}.

(** The field whose mutable accessor is called [accessor]. *)
Definition field_of_mut_accessor (oneof : OneofDescriptor.t)
    (accessor : string) : option FieldDescriptor.t :=
  find (fun field => String.eqb (FieldDescriptor.name field ++ "_mut") accessor)
       (OneofDescriptor.fields oneof).

Inductive Unwrapped : Type :=
| Unwrapped_ok
| Unwrapped_panic
| Unwrapped_undefined.

(** [self.accessor().try_into_mut().unwrap()] on a kernel. *)
Definition unwrap_mut (oneof : OneofDescriptor.t) (kernel : Kernel)
    (accessor : string) : Unwrapped :=
  match field_of_mut_accessor oneof accessor with
  | Some field =>
      if has_field kernel field then Unwrapped_ok else Unwrapped_panic
  | None => Unwrapped_panic
  end.

(** The unwrap a run of the mutate accessor meets, if it meets one. *)
Definition mutate_unwrap `{Externals} (ctx : Context)
    (oneof : OneofDescriptor.t) (kernel : Kernel) : Result Unwrapped :=
  taken <- mutate_accessor ctx oneof (case_tag kernel) ;;
  match taken with
  | Wrap _ accessor => Ok (unwrap_mut oneof kernel accessor)
  | NotSet => Ok Unwrapped_ok
  | Undefined => Ok Unwrapped_undefined
  end.

(** The case-tag query agrees with the presence of the fields: the tag of
    the kernel is 0 or the number of a field of the group, and it names no
    field that is absent. *)
Definition tag_agrees_with_presence (oneof : OneofDescriptor.t)
    (kernel : Kernel) : bool :=
  (Z.eqb (case_tag kernel) 0
   || existsb (fun field =>
                 Z.eqb (FieldDescriptor.number field) (case_tag kernel))
              (OneofDescriptor.fields oneof))
  && forallb (fun field =>
                implb (Z.eqb (FieldDescriptor.number field) (case_tag kernel))
                      (has_field kernel field))
             (OneofDescriptor.fields oneof).

End Generated.

(** ** Well-formed input *)

(** A field is bindable when its legacy-representation flag is not set. *)
Definition bindable (field : FieldDescriptor.t) : bool :=
  negb (FieldDescriptor.has_ctype field).

(** The closed set of kinds. *)
Definition kind_supported (kind : RustFieldType) : bool :=
  match kind with
  | Unlisted _ => false
  | _ => true
  end.

Definition kind_primitive (kind : RustFieldType) : bool :=
  match kind with
  | INT32 | INT64 | UINT32 | UINT64 | FLOAT | DOUBLE | BOOL => true
  | _ => false
  end.

Section WellFormed.
Context `{Externals}.

(** Every field of the group has a kind of the closed set. *)
Definition kinds_in_closed_set (oneof : OneofDescriptor.t) : bool :=
  forallb (fun field =>
             kind_supported (GetRustFieldType (FieldDescriptor.type field)))
          (OneofDescriptor.fields oneof).

(** The type-path resolver names a type for every field of a primitive
    kind. *)
Definition primitive_paths_named (ctx : Context) (oneof : OneofDescriptor.t)
  : bool :=
  forallb (fun field =>
             negb (kind_primitive
                     (GetRustFieldType (FieldDescriptor.type field)))
             || negb (empty (RsTypePath ctx field)))
          (OneofDescriptor.fields oneof).

End WellFormed.

(** No element of the list occurs twice. *)
Fixpoint distinctb {A : Type} (eqb : A -> A -> bool) (l : list A) : bool :=
  match l with
  | [] => true
  | x :: rest => negb (existsb (eqb x) rest) && distinctb eqb rest
  end.

(** No two fields of the group share a number. *)
Definition distinct_numbers (oneof : OneofDescriptor.t) : bool :=
  distinctb Z.eqb (map FieldDescriptor.number (OneofDescriptor.fields oneof)).

(** No two fields of the group share a name. *)
Definition distinct_names (oneof : OneofDescriptor.t) : bool :=
  distinctb String.eqb
    (map FieldDescriptor.name (OneofDescriptor.fields oneof)).

(** The naming utility gives no two fields of the group the same case
    name. *)
Definition distinct_case_names `{Externals} (oneof : OneofDescriptor.t)
  : bool :=
  distinctb String.eqb (map OneofCaseRsName (OneofDescriptor.fields oneof)).

(** The tag is one the case-tag query of the kernel can return for the
    group: 0, or the number of one of its fields. *)
Definition tag_in_case_enum (oneof : OneofDescriptor.t) (tag : Z) : bool :=
  Z.eqb tag 0
  || existsb (fun field => Z.eqb (FieldDescriptor.number field) tag)
             (OneofDescriptor.fields oneof).

(** Field numbers are positive. *)
Definition numbers_positive (oneof : OneofDescriptor.t) : bool :=
  forallb (fun field => Z.ltb 0 (FieldDescriptor.number field))
          (OneofDescriptor.fields oneof).

(** ** A sample schema *)

Module Sample.

Definition upper (c : ascii) : ascii :=
  let n := nat_of_ascii c in
  if Nat.leb 97 n && Nat.leb n 122 then ascii_of_nat (n - 32) else c.

(** snake_case to CamelCase. *)
Fixpoint camel_from (up : bool) (s : string) : string :=
  match s with
  | EmptyString => EmptyString
  | String c rest =>
      if Ascii.eqb c "_" then camel_from true rest
      else String (if up then upper c else c) (camel_from false rest)
  end.

Definition camel (s : string) : string := camel_from true s.

(** The numbering of [FieldDescriptor::Type] in descriptor.proto. *)
Definition kind_of_type (type : FieldType) : RustFieldType :=
  match type with
  | 1 => DOUBLE | 2 => FLOAT | 3 => INT64 | 4 => UINT64 | 5 => INT32
  | 6 => UINT64 | 7 => UINT32 | 8 => BOOL | 9 => STRING | 10 => MESSAGE
  | 11 => MESSAGE | 12 => BYTES | 13 => UINT32 | 14 => ENUM | 15 => INT32
  | 16 => INT64 | 17 => INT32 | 18 => INT64
  | other => Unlisted other
  end%Z.

Definition type_path (field : FieldDescriptor.t) : string :=
  match kind_of_type (FieldDescriptor.type field) with
  | INT32 => "i32" | INT64 => "i64" | UINT32 => "u32" | UINT64 => "u64"
  | FLOAT => "f32" | DOUBLE => "f64" | BOOL => "bool"
  | BYTES => "[u8]" | STRING => "::__pb::ProtoStr"
  | _ => "crate::" ++ FieldDescriptor.type_name field
  end.

#[local] Instance externals : Externals := {|
  Context := unit;
  GetRustFieldType := kind_of_type;
  RsTypePath := fun _ field => type_path field;
  OneofCaseRsName := fun field => camel (FieldDescriptor.name field);
  OneofViewEnumRsName := fun oneof => camel (OneofDescriptor.name oneof);
  OneofMutEnumRsName := fun oneof => camel (OneofDescriptor.name oneof) ++ "Mut";
  OneofCaseEnumRsName :=
    fun oneof => camel (OneofDescriptor.name oneof) ++ "Case";
  RsSafeName := fun s => s;
  ThunkName := fun _ oneof op =>
    "__rust_proto_thunk__"
      ++ Descriptor.full_name (OneofDescriptor.containing_type oneof)
      ++ "_" ++ op ++ "_" ++ OneofDescriptor.name oneof;
  QualifiedClassName := fun msg => "::" ++ Descriptor.full_name msg
|}.

Definition ctx : Context := tt.

Definition person : Descriptor.t := Descriptor.Build "Person".

Definition email : FieldDescriptor.t :=
  FieldDescriptor.Build "email" 3%Z 9%Z "string" false.

Definition phone : FieldDescriptor.t :=
  FieldDescriptor.Build "phone" 5%Z 3%Z "int64" false.

Definition blob : FieldDescriptor.t :=
  FieldDescriptor.Build "blob" 1%Z 12%Z "bytes" true.

(** Scenario A: group contact with email (utf8-string, 3) and phone
    (signed64, 5). *)
Definition contact : OneofDescriptor.t :=
  OneofDescriptor.Build "contact" person [email; phone].

(** Scenario B: group payload with the single legacy field blob (bytes, 1). *)
Definition payload : OneofDescriptor.t :=
  OneofDescriptor.Build "payload" person [blob].

(** A group with a legacy field next to bindable ones. *)
Definition mixed : OneofDescriptor.t :=
  OneofDescriptor.Build "mixed" person [email; blob; phone].

(** A legacy field whose type has no kind in the closed set. *)
Definition odd : FieldDescriptor.t :=
  FieldDescriptor.Build "odd" 2%Z 99%Z "odd" true.

Definition odd_group : OneofDescriptor.t :=
  OneofDescriptor.Build "odd_group" person [odd].

(** The same field without the legacy flag. *)
Definition odd_plain : FieldDescriptor.t :=
  FieldDescriptor.Build "odd" 2%Z 99%Z "odd" false.

(** A group with a field of such a type and no legacy flag. *)
Definition odd_plain_group : OneofDescriptor.t :=
  OneofDescriptor.Build "odd_plain_group" person [email; odd_plain].

(** A kernel in which phone is the active member of contact. *)
Definition phone_active : Generated.Kernel :=
  Generated.BuildKernel 5%Z
    (fun field => Z.eqb (FieldDescriptor.number field) 5%Z).

(** The printer of a message generator that has bound [Msg] and [pbi]. *)
Definition printer : Printer.t :=
  Printer.Build ""
    [[("Msg", Text "Person"); ("pbi", Text "::__pb::__internal")]].

End Sample.

(** Everything the generator writes for a group. *)
Definition generate_all `{Externals} (ctx : Context)
    (oneof : OneofDescriptor.t) (accessor_case : AccessorCase)
  : list EmitCall :=
  (GenerateOneofDefinition ctx oneof
     ++ GenerateOneofAccessors ctx oneof accessor_case
     ++ GenerateOneofExternC ctx oneof
     ++ GenerateOneofThunkCc ctx oneof)%list.

(** ** Expected texts *)

Definition join (texts : list string) : string :=
  fold_right append "" texts.

(** [needle] occurs in [text]. *)
Fixpoint mentions (needle text : string) : bool :=
  String.prefix needle text
  || match text with
     | EmptyString => false
     | String _ rest => mentions needle rest
     end.

(** The variant that closes a union. *)
Definition not_set_variant : option (string * string * Z) :=
  Some ("not_set", "std::marker::PhantomData<&'msg ()>", 0%Z).

(** One entry of the case enum. *)
Definition case_text (name number : string) : string :=
  name ++ " = " ++ number ++ ",
                ".

(** One variant of a union. *)
Definition variant_text (name type number : string) : string :=
  name ++ "(" ++ type ++ ") = " ++ number ++ ",
                ".

(** The view enum and the mut enum around their variants. *)
Definition union_enums_text
    (view_name view_variants mut_name mut_variants : string) : string :=
  "
      #[non_exhaustive]
      #[derive(Debug, Clone, Copy)]
      #[allow(dead_code)]
      #[repr(isize)]
      pub enum " ++ view_name ++ "<'msg> {
        " ++ view_variants ++ "

        #[allow(non_camel_case_types)]
        not_set(std::marker::PhantomData<&'msg ()>) = 0
      }

      #[non_exhaustive]
      #[derive(Debug)]
      #[allow(dead_code)]
      #[repr(isize)]
      pub enum " ++ mut_name ++ "<'msg> {
        " ++ mut_variants ++ "

        #[allow(non_camel_case_types)]
        not_set(std::marker::PhantomData<&'msg ()>) = 0
      }

      ".

(** The case enum around its entries. *)
Definition case_enum_text (enum_name entries : string) : string :=
  "
      #[repr(C)]
      #[derive(Debug, Copy, Clone, PartialEq, Eq)]
      #[allow(dead_code)]
      pub(super) enum " ++ enum_name ++ " {
        " ++ entries ++ "

        #[allow(non_camel_case_types)]
        not_set = 0
      }

      ".

(** One arm of the read accessor. *)
Definition view_arm_text
    (Msg case_enum_name view_enum_name case rs_getter : string) : string :=
  "
                " ++ Msg ++ "_::" ++ case_enum_name ++ "::" ++ case ++ " =>
                    " ++ Msg ++ "_::" ++ view_enum_name ++ "::" ++ case ++ "(self." ++ rs_getter ++ "()),
                ".

(** One arm of the mutate accessor. *)
Definition mut_arm_text
    (Msg case_enum_name mut_enum_name case rs_mut_getter : string) : string :=
  "
                " ++ Msg ++ "_::" ++ case_enum_name ++ "::" ++ case ++ " =>
                    " ++ Msg ++ "_::" ++ mut_enum_name ++ "::" ++ case ++ "(
                        self." ++ rs_mut_getter ++ "().try_into_mut().unwrap()),
               ".

(** The read accessor around its arms. *)
Definition getter_text
    (Msg oneof_name view_enum_name case_thunk view_cases : string) : string :=
  "
          pub fn " ++ oneof_name ++ "(&self) -> " ++ Msg ++ "_::" ++ view_enum_name ++ " {
            match unsafe { " ++ case_thunk ++ "(self.raw_msg()) } {
              " ++ view_cases ++ "
              _ => " ++ Msg ++ "_::" ++ view_enum_name ++ "::not_set(std::marker::PhantomData)
            }
          }
          ".

(** The mutate accessor around its arms. *)
Definition getter_mut_text
    (Msg oneof_name mut_enum_name case_thunk mut_cases : string) : string :=
  "
          pub fn " ++ oneof_name ++ "_mut(&mut self) -> " ++ Msg ++ "_::" ++ mut_enum_name ++ " {
          match unsafe { " ++ case_thunk ++ "(self.raw_msg()) } {
            " ++ mut_cases ++ "
            _ => " ++ Msg ++ "_::" ++ mut_enum_name ++ "::not_set(std::marker::PhantomData)
          }
        }
        ".

(** The two accessors. *)
Definition accessors_text
    (getter getter_mut : string) : string :=
  "
        " ++ getter ++ "
        " ++ getter_mut ++ "
      ".

(** The declaration of the thunk on the Rust side. *)
Definition extern_c_text
    (Msg pbi case_enum_rs_name case_thunk : string) : string :=
  "
        fn " ++ case_thunk ++ "(raw_msg: " ++ pbi ++ "::RawMessage) -> " ++ Msg ++ "_::" ++ case_enum_rs_name ++ ";
      ".

(** The definition of the thunk on the C++ side. *)
Definition thunk_cc_text
    (QualifiedMsg case_enum_name case_thunk oneof_name : string) : string :=
  "
        " ++ QualifiedMsg ++ "::" ++ case_enum_name ++ " " ++ case_thunk ++ "(" ++ QualifiedMsg ++ "* msg) {
          return msg->" ++ oneof_name ++ "_case();
        }
      ".

Section ExpectedCalls.
Context `{Externals}.

(** The call the [cases] callback makes for a field. *)
Definition case_call (field : FieldDescriptor.t) : EmitCall :=
  Emit [("name", Text (OneofCaseRsName field));
        ("number", Text (to_string (FieldDescriptor.number field)))]
       case_format.

(** The type the view mapper returns for a field, the empty string when it
    is fatal. *)
Definition view_type (ctx : Context) (field : FieldDescriptor.t) : string :=
  match RsTypeNameView ctx field with
  | Ok rs_type => rs_type
  | Fatal _ => ""
  end.

(** The type the mut mapper returns for a field. *)
Definition mut_type (ctx : Context) (field : FieldDescriptor.t) : string :=
  match RsTypeNameMut ctx field with
  | Ok rs_type => rs_type
  | Fatal _ => ""
  end.

(** The call the [view_fields] callback makes for a field it does not
    skip. *)
Definition view_field_call (ctx : Context) (field : FieldDescriptor.t)
  : EmitCall :=
  Emit [("name", Text (OneofCaseRsName field));
        ("type", Text (view_type ctx field));
        ("number", Text (to_string (FieldDescriptor.number field)))]
       view_field_format.

(** The call the [mut_fields] callback makes for a field it does not
    skip. *)
Definition mut_field_call (ctx : Context) (field : FieldDescriptor.t)
  : EmitCall :=
  Emit [("name", Text (OneofCaseRsName field));
        ("type", Text (mut_type ctx field));
        ("number", Text (to_string (FieldDescriptor.number field)))]
       mut_field_format.

(** The call the [view_cases] callback makes for a field it does not
    skip. *)
Definition view_case_call (ctx : Context) (field : FieldDescriptor.t)
  : EmitCall :=
  Emit [("case", Text (OneofCaseRsName field));
        ("rs_getter", Text (RsSafeName (FieldDescriptor.name field)));
        ("type", Text (view_type ctx field))]
       view_case_format.

(** The call the [mut_cases] callback makes for a field it does not
    skip. *)
Definition mut_case_call (ctx : Context) (field : FieldDescriptor.t)
  : EmitCall :=
  Emit [("case", Text (OneofCaseRsName field));
        ("rs_mut_getter", Text (FieldDescriptor.name field ++ "_mut"));
        ("type", Text (mut_type ctx field))]
       mut_case_format.

(** The text [GenerateOneofAccessors] appends: the read accessor, and the
    mutate accessor unless the accessor case is [VIEW]. *)
Definition accessors_expected (ctx : Context) (oneof : OneofDescriptor.t)
    (accessor_case : AccessorCase) (Msg : string) : string :=
  let bindables := filter bindable (OneofDescriptor.fields oneof) in
  accessors_text
    (getter_text Msg (RsSafeName (OneofDescriptor.name oneof))
       (OneofViewEnumRsName oneof) (ThunkName ctx oneof "case")
       (join (map (fun field =>
                     view_arm_text Msg (OneofCaseEnumRsName oneof)
                       (OneofViewEnumRsName oneof)
                       (OneofCaseRsName field)
                       (RsSafeName (FieldDescriptor.name field)))
                  bindables)))
    (if AccessorCase_is_VIEW accessor_case then ""
     else
       getter_mut_text Msg (RsSafeName (OneofDescriptor.name oneof))
         (OneofMutEnumRsName oneof) (ThunkName ctx oneof "case")
         (join (map (fun field =>
                       mut_arm_text Msg (OneofCaseEnumRsName oneof)
                         (OneofMutEnumRsName oneof)
                         (OneofCaseRsName field)
                         (FieldDescriptor.name field ++ "_mut"))
                    bindables))).

(** The text [GenerateOneofDefinition] appends: the two unions, then the
    case enum. *)
Definition definition_expected (ctx : Context) (oneof : OneofDescriptor.t)
  : string :=
  let bindables := filter bindable (OneofDescriptor.fields oneof) in
  union_enums_text
    (OneofViewEnumRsName oneof)
    (join (map (fun field =>
                  variant_text (OneofCaseRsName field) (view_type ctx field)
                               (to_string (FieldDescriptor.number field)))
               bindables))
    (OneofMutEnumRsName oneof)
    (join (map (fun field =>
                  variant_text (OneofCaseRsName field) (mut_type ctx field)
                               (to_string (FieldDescriptor.number field)))
               bindables))
  ++ case_enum_text
       (OneofCaseEnumRsName oneof)
       (join (map (fun field =>
                     case_text (OneofCaseRsName field)
                               (to_string (FieldDescriptor.number field)))
                  (OneofDescriptor.fields oneof))).

(** The text opens the definition of the mut enum of the group. *)
Definition emits_mut_union (oneof : OneofDescriptor.t) (text : string) : bool :=
  mentions ("pub enum " ++ OneofMutEnumRsName oneof ++ "<'msg> {") text.

(** The text opens the definition of the mutate accessor of the group. *)
Definition emits_getter_mut (oneof : OneofDescriptor.t) (text : string)
  : bool :=
  mentions ("pub fn " ++ RsSafeName (OneofDescriptor.name oneof)
              ++ "_mut(&mut self)") text.

End ExpectedCalls.

(** ** Further readings of the emitted calls *)


(** The message both mappers log for a kind they have no case for. *)
Definition unexpected_field_type (field : FieldDescriptor.t) : string :=
  "Unexpected field type: " ++ FieldDescriptor.type_name field.

Section Skipping.
Context `{Externals}.

(** The fields the view loops do not skip when every kind is of the closed
    set: those without the legacy flag, except the ones of a primitive kind
    for which the type path is empty. *)
Definition view_emitted (ctx : Context) (field : FieldDescriptor.t) : bool :=
  bindable field
  && negb (kind_primitive (GetRustFieldType (FieldDescriptor.type field))
           && empty (RsTypePath ctx field)).

(** A mapper returns for the field: it has the legacy flag or a kind of the
    closed set. *)
Definition mapper_returns (field : FieldDescriptor.t) : bool :=
  FieldDescriptor.has_ctype field
  || kind_supported (GetRustFieldType (FieldDescriptor.type field)).

End Skipping.

(** The sample schema with a type-path resolver that names no type. *)
Module Pathless.

#[local] Instance externals : Externals := {|
  Context := unit;
  GetRustFieldType := Sample.kind_of_type;
  RsTypePath := fun _ _ => "";
  OneofCaseRsName := fun field => Sample.camel (FieldDescriptor.name field);
  OneofViewEnumRsName :=
    fun oneof => Sample.camel (OneofDescriptor.name oneof);
  OneofMutEnumRsName :=
    fun oneof => Sample.camel (OneofDescriptor.name oneof) ++ "Mut";
  OneofCaseEnumRsName :=
    fun oneof => Sample.camel (OneofDescriptor.name oneof) ++ "Case";
  RsSafeName := fun s => s;
  ThunkName := fun _ oneof op => op ++ "_" ++ OneofDescriptor.name oneof;
  QualifiedClassName := fun msg => "::" ++ Descriptor.full_name msg
|}.

Definition ctx : Context := tt.

End Pathless.

(** * Properties *)

(** ** Strings and numbers *)

Lemma append_nil_r (s : string) : s ++ "" = s.
Proof.
  induction s as [|c s IH]; simpl; [reflexivity | now rewrite IH].
Qed.

Lemma append_assoc (a b c : string) : (a ++ b) ++ c = a ++ (b ++ c).
Proof.
  induction a as [|x a IH]; simpl; [reflexivity | now rewrite IH].
Qed.

Lemma to_int_positive (n : Z) :
  Z.to_int n <> Decimal.Pos Decimal.Nil /\ Z.to_int n <> Decimal.Neg Decimal.Nil.
Proof.
  destruct n as [|p|p]; simpl; split; try discriminate;
    intros E; injection E as E; now apply DecimalPos.Unsigned.to_uint_nonnil in E.
Qed.

(** The decimal notation [std::to_string] writes reads back as the number. *)
Lemma parse_number_to_string (n : Z) :
  Generated.parse_number (to_string n) = Some n.
Proof.
  unfold Generated.parse_number, to_string.
  destruct (to_int_positive n) as [Hp Hn].
  rewrite NilZero.isi by assumption.
  simpl. now rewrite DecimalZ.of_to.
Qed.

(** ** Loops over the fields *)

Lemma for_each_field_flat_map (fields : list FieldDescriptor.t)
    (round : FieldDescriptor.t -> Result (list EmitCall))
    (calls : FieldDescriptor.t -> list EmitCall) :
  (forall field, In field fields -> round field = Ok (calls field)) ->
  for_each_field fields round = Ok (flat_map calls fields).
Proof.
  induction fields as [|field rest IH]; intros Hround; simpl.
  - reflexivity.
  - rewrite (Hround field) by (left; reflexivity). simpl.
    rewrite IH by (intros g Hg; apply Hround; right; exact Hg).
    reflexivity.
Qed.

Lemma flat_map_singleton {A B : Type} (f : A -> B) (l : list A) :
  flat_map (fun x => [f x]) l = map f l.
Proof.
  induction l as [|x l IH]; simpl; [reflexivity | now rewrite IH].
Qed.

(** A loop round that emits for the fields [keep] accepts and skips the
    others is a map over the filtered fields. *)
Lemma flat_map_filter {A B : Type} (keep : A -> bool) (f : A -> B)
    (l : list A) :
  flat_map (fun x => if keep x then [f x] else []) l = map f (filter keep l).
Proof.
  induction l as [|x l IH]; simpl; [reflexivity |].
  destruct (keep x); simpl; now rewrite IH.
Qed.

(** ** Expansion of the formats *)

Lemma concat_runs_map_ok {A : Type} (run : A -> Printer.Run string)
    (text : A -> string) (l : list A) :
  (forall x, In x l -> run x = Some (Ok (text x))) ->
  Printer.concat_runs (map run l) = Some (Ok (join (map text l))).
Proof.
  induction l as [|x l IH]; intros Hrun; simpl.
  - reflexivity.
  - rewrite (Hrun x) by (left; reflexivity).
    rewrite IH by (intros y Hy; apply Hrun; right; exact Hy).
    reflexivity.
Qed.

Lemma concat_runs_one (run : Printer.Run string) :
  Printer.concat_runs [run] = run.
Proof.
  destruct run as [[text | msg] |]; simpl; try reflexivity.
  now rewrite append_nil_r.
Qed.

Lemma expand_S (depth : nat) (frames : list Printer.Frame)
    (vars : Printer.Frame) (format : string) :
  Printer.expand (S depth) frames (Emit vars format) =
  Printer.concat_runs
    (map (Printer.expand_chunk (Printer.expand depth (vars :: frames))
                               (vars :: frames))
         (Printer.tokenize format)).
Proof. reflexivity. Qed.

(** Unfold one level of [Printer.expand] on a format whose chunks are given
    by the lemma [tokens], and resolve the variables the call itself binds. *)
Ltac expand_with tokens :=
  rewrite expand_S, tokens;
  cbn [map Printer.expand_chunk Printer.lookup Printer.lookup_frame
       String.eqb Ascii.eqb Bool.eqb].

Lemma tokenize_case_format :
  Printer.tokenize case_format =
  [Printer.Lit ""; Printer.Var "name"; Printer.Lit " = ";
   Printer.Var "number"; Printer.Lit ",
                "].
Proof. reflexivity. Qed.

Lemma tokenize_case_enum_format :
  Printer.tokenize case_enum_format =
  [Printer.Lit "
      #[repr(C)]
      #[derive(Debug, Copy, Clone, PartialEq, Eq)]
      #[allow(dead_code)]
      pub(super) enum "; Printer.Var "case_enum_name"; Printer.Lit " {
        "; Printer.Var "cases"; Printer.Lit "

        #[allow(non_camel_case_types)]
        not_set = 0
      }

      "].
Proof. reflexivity. Qed.

Section CaseEnum.
Context `{Externals}.

Lemma cases_map (oneof : OneofDescriptor.t) :
  cases oneof = Ok (map case_call (OneofDescriptor.fields oneof)).
Proof.
  unfold cases.
  rewrite (for_each_field_flat_map _ _ (fun field => [case_call field]))
    by (intros; reflexivity).
  now rewrite flat_map_singleton.
Qed.

Lemma expand_case_call (depth : nat) (frames : list Printer.Frame)
    (field : FieldDescriptor.t) :
  Printer.expand (S depth) frames (case_call field) =
  Some (Ok (case_text (OneofCaseRsName field)
                      (to_string (FieldDescriptor.number field)))).
Proof.
  unfold case_call. rewrite expand_S, tokenize_case_format. reflexivity.
Qed.

Lemma entry_case_call (field : FieldDescriptor.t) :
  Generated.entry (case_call field) =
  Some (OneofCaseRsName field, FieldDescriptor.number field).
Proof.
  unfold Generated.entry, case_call. cbn.
  now rewrite parse_number_to_string.
Qed.

Lemma length_filter_split {A : Type} (keep : A -> bool) (l : list A) :
  List.length l =
  List.length (filter keep l)
  + List.length (filter (fun x => negb (keep x)) l).
Proof.
  induction l as [|x l IH]; simpl; [reflexivity |].
  destruct (keep x); simpl; lia.
Qed.

(** The text of the second call of [GenerateOneofDefinition]. *)
Lemma expand_case_enum (oneof : OneofDescriptor.t) (depth : nat)
    (frames : list Printer.Frame) :
  Printer.expand (2 + depth) frames (case_enum oneof) =
  Some (Ok (case_enum_text
              (OneofCaseEnumRsName oneof)
              (join (map (fun field =>
                            case_text
                              (OneofCaseRsName field)
                              (to_string (FieldDescriptor.number field)))
                         (OneofDescriptor.fields oneof))))).
Proof.
  unfold case_enum. change (2 + depth) with (S (S depth)).
  expand_with tokenize_case_enum_format.
  rewrite cases_map.
  cbn [Printer.expand_body Printer.concat_runs].
  rewrite map_map.
  rewrite (concat_runs_map_ok _
             (fun field =>
                case_text (OneofCaseRsName field)
                          (to_string (FieldDescriptor.number field))))
    by (intros field _; apply expand_case_call).
  reflexivity.
Qed.

End CaseEnum.

(** ** The type mappers *)

Section Mappers.
Context `{Externals}.

Lemma RsTypeNameView_legacy (ctx : Context) (field : FieldDescriptor.t) :
  FieldDescriptor.has_ctype field = true -> RsTypeNameView ctx field = Ok "".
Proof. intros Hc. unfold RsTypeNameView. now rewrite Hc. Qed.

Lemma RsTypeNameMut_legacy (ctx : Context) (field : FieldDescriptor.t) :
  FieldDescriptor.has_ctype field = true -> RsTypeNameMut ctx field = Ok "".
Proof. intros Hc. unfold RsTypeNameMut. now rewrite Hc. Qed.

Lemma RsTypeNameView_returns (ctx : Context) (field : FieldDescriptor.t) :
  kind_supported (GetRustFieldType (FieldDescriptor.type field)) = true ->
  RsTypeNameView ctx field = Ok (view_type ctx field).
Proof.
  intros Hk. unfold view_type, RsTypeNameView.
  destruct (FieldDescriptor.has_ctype field); [reflexivity |].
  destruct (GetRustFieldType (FieldDescriptor.type field));
    try reflexivity; discriminate.
Qed.

Lemma RsTypeNameMut_returns (ctx : Context) (field : FieldDescriptor.t) :
  kind_supported (GetRustFieldType (FieldDescriptor.type field)) = true ->
  RsTypeNameMut ctx field = Ok (mut_type ctx field).
Proof.
  intros Hk. unfold mut_type, RsTypeNameMut, GetRustFieldType_of_field.
  destruct (FieldDescriptor.has_ctype field); [reflexivity |].
  destruct (GetRustFieldType (FieldDescriptor.type field));
    try reflexivity; discriminate.
Qed.

(** The view mapper reports unsupported exactly for the legacy fields, once
    primitive kinds have a type path. *)
Lemma view_type_empty (ctx : Context) (field : FieldDescriptor.t) :
  kind_supported (GetRustFieldType (FieldDescriptor.type field)) = true ->
  negb (kind_primitive (GetRustFieldType (FieldDescriptor.type field)))
  || negb (empty (RsTypePath ctx field)) = true ->
  empty (view_type ctx field) = FieldDescriptor.has_ctype field.
Proof.
  intros Hk Hp. unfold view_type, RsTypeNameView.
  destruct (FieldDescriptor.has_ctype field); [reflexivity |].
  destruct (GetRustFieldType (FieldDescriptor.type field));
    try discriminate; try reflexivity;
    simpl in Hp; now destruct (empty (RsTypePath ctx field)).
Qed.

(** The mut mapper reports unsupported exactly for the legacy fields. *)
Lemma mut_type_empty (ctx : Context) (field : FieldDescriptor.t) :
  kind_supported (GetRustFieldType (FieldDescriptor.type field)) = true ->
  empty (mut_type ctx field) = FieldDescriptor.has_ctype field.
Proof.
  intros Hk. unfold mut_type, RsTypeNameMut, GetRustFieldType_of_field.
  destruct (FieldDescriptor.has_ctype field); [reflexivity |].
  destruct (GetRustFieldType (FieldDescriptor.type field));
    try discriminate; reflexivity.
Qed.

Lemma kinds_in_closed_set_In (oneof : OneofDescriptor.t)
    (field : FieldDescriptor.t) :
  kinds_in_closed_set oneof = true ->
  In field (OneofDescriptor.fields oneof) ->
  kind_supported (GetRustFieldType (FieldDescriptor.type field)) = true.
Proof.
  unfold kinds_in_closed_set. rewrite forallb_forall. intros Hall Hin.
  now apply Hall.
Qed.

Lemma primitive_paths_named_In (ctx : Context) (oneof : OneofDescriptor.t)
    (field : FieldDescriptor.t) :
  primitive_paths_named ctx oneof = true ->
  In field (OneofDescriptor.fields oneof) ->
  negb (kind_primitive (GetRustFieldType (FieldDescriptor.type field)))
  || negb (empty (RsTypePath ctx field)) = true.
Proof.
  unfold primitive_paths_named. rewrite forallb_forall. intros Hall Hin.
  now apply Hall.
Qed.

Lemma view_fields_map (ctx : Context) (oneof : OneofDescriptor.t) :
  kinds_in_closed_set oneof = true ->
  primitive_paths_named ctx oneof = true ->
  view_fields ctx oneof =
  Ok (map (view_field_call ctx) (filter bindable (OneofDescriptor.fields oneof))).
Proof.
  intros Hk Hp. unfold view_fields.
  rewrite (for_each_field_flat_map _ _
             (fun field => if bindable field
                           then [view_field_call ctx field] else [])).
  - now rewrite flat_map_filter.
  - intros field Hin.
    rewrite (RsTypeNameView_returns ctx field)
      by (eapply kinds_in_closed_set_In; eassumption).
    cbn [bind].
    rewrite view_type_empty
      by (eauto using kinds_in_closed_set_In, primitive_paths_named_In).
    unfold bindable. now destruct (FieldDescriptor.has_ctype field).
Qed.

Lemma mut_fields_map (ctx : Context) (oneof : OneofDescriptor.t) :
  kinds_in_closed_set oneof = true ->
  mut_fields ctx oneof =
  Ok (map (mut_field_call ctx) (filter bindable (OneofDescriptor.fields oneof))).
Proof.
  intros Hk. unfold mut_fields.
  rewrite (for_each_field_flat_map _ _
             (fun field => if bindable field
                           then [mut_field_call ctx field] else [])).
  - now rewrite flat_map_filter.
  - intros field Hin.
    rewrite (RsTypeNameMut_returns ctx field)
      by (eapply kinds_in_closed_set_In; eassumption).
    cbn [bind].
    rewrite mut_type_empty by (eauto using kinds_in_closed_set_In).
    unfold bindable. now destruct (FieldDescriptor.has_ctype field).
Qed.

End Mappers.

(** ** The view union and the mut union *)

Lemma tokenize_view_field_format :
  Printer.tokenize view_field_format =
  [Printer.Lit ""; Printer.Var "name"; Printer.Lit "(";
   Printer.Var "type"; Printer.Lit ") = "; Printer.Var "number";
   Printer.Lit ",
                "].
Proof. reflexivity. Qed.

Lemma tokenize_union_enums_format :
  Printer.tokenize union_enums_format =
  [Printer.Lit "
      #[non_exhaustive]
      #[derive(Debug, Clone, Copy)]
      #[allow(dead_code)]
      #[repr(isize)]
      pub enum "; Printer.Var "view_enum_name"; Printer.Lit "<'msg> {
        "; Printer.Var "view_fields"; Printer.Lit "

        #[allow(non_camel_case_types)]
        not_set(std::marker::PhantomData<&'msg ()>) = 0
      }

      #[non_exhaustive]
      #[derive(Debug)]
      #[allow(dead_code)]
      #[repr(isize)]
      pub enum "; Printer.Var "mut_enum_name"; Printer.Lit "<'msg> {
        "; Printer.Var "mut_fields"; Printer.Lit "

        #[allow(non_camel_case_types)]
        not_set(std::marker::PhantomData<&'msg ()>) = 0
      }

      "].
Proof. reflexivity. Qed.

(** The two unions write their variants with one and the same format. *)
Lemma mut_field_format_eq : mut_field_format = view_field_format.
Proof. reflexivity. Qed.

Section Unions.
Context `{Externals}.

Lemma expand_view_field_call (depth : nat) (frames : list Printer.Frame)
    (ctx : Context) (field : FieldDescriptor.t) :
  Printer.expand (S depth) frames (view_field_call ctx field) =
  Some (Ok (variant_text (OneofCaseRsName field) (view_type ctx field)
                         (to_string (FieldDescriptor.number field)))).
Proof.
  unfold view_field_call.
  rewrite expand_S, tokenize_view_field_format. reflexivity.
Qed.

Lemma expand_mut_field_call (depth : nat) (frames : list Printer.Frame)
    (ctx : Context) (field : FieldDescriptor.t) :
  Printer.expand (S depth) frames (mut_field_call ctx field) =
  Some (Ok (variant_text (OneofCaseRsName field) (mut_type ctx field)
                         (to_string (FieldDescriptor.number field)))).
Proof.
  unfold mut_field_call.
  rewrite expand_S, mut_field_format_eq, tokenize_view_field_format.
  reflexivity.
Qed.

Lemma variant_view_field_call (ctx : Context) (field : FieldDescriptor.t) :
  Generated.variant (view_field_call ctx field) =
  Some (OneofCaseRsName field, view_type ctx field,
        FieldDescriptor.number field).
Proof.
  unfold Generated.variant, view_field_call. cbn.
  now rewrite parse_number_to_string.
Qed.


(** The text of the first call of [GenerateOneofDefinition]. *)
Lemma expand_union_enums (ctx : Context) (oneof : OneofDescriptor.t)
    (depth : nat) (frames : list Printer.Frame) :
  kinds_in_closed_set oneof = true ->
  primitive_paths_named ctx oneof = true ->
  Printer.expand (2 + depth) frames (union_enums ctx oneof) =
  Some (Ok (union_enums_text
              (OneofViewEnumRsName oneof)
              (join (map (fun field =>
                            variant_text
                              (OneofCaseRsName field) (view_type ctx field)
                              (to_string (FieldDescriptor.number field)))
                         (filter bindable (OneofDescriptor.fields oneof))))
              (OneofMutEnumRsName oneof)
              (join (map (fun field =>
                            variant_text
                              (OneofCaseRsName field) (mut_type ctx field)
                              (to_string (FieldDescriptor.number field)))
                         (filter bindable (OneofDescriptor.fields oneof)))))).
Proof.
  intros Hk Hp. unfold union_enums. change (2 + depth) with (S (S depth)).
  expand_with tokenize_union_enums_format.
  rewrite view_fields_map, mut_fields_map by assumption.
  cbn [Printer.expand_body]. rewrite !map_map.
  rewrite (concat_runs_map_ok _
             (fun field =>
                variant_text (OneofCaseRsName field) (view_type ctx field)
                             (to_string (FieldDescriptor.number field))))
    by (intros field _; apply expand_view_field_call).
  rewrite (concat_runs_map_ok _
             (fun field =>
                variant_text (OneofCaseRsName field) (mut_type ctx field)
                             (to_string (FieldDescriptor.number field))))
    by (intros field _; apply expand_mut_field_call).
  reflexivity.
Qed.


End Unions.

(** ** The accessors *)

Lemma tokenize_view_case_format :
  Printer.tokenize view_case_format =
  [Printer.Lit "
                ";
   Printer.Var "Msg";
   Printer.Lit "_::";
   Printer.Var "case_enum_name";
   Printer.Lit "::";
   Printer.Var "case";
   Printer.Lit " =>
                    ";
   Printer.Var "Msg";
   Printer.Lit "_::";
   Printer.Var "view_enum_name";
   Printer.Lit "::";
   Printer.Var "case";
   Printer.Lit "(self.";
   Printer.Var "rs_getter";
   Printer.Lit "()),
                "].
Proof. reflexivity. Qed.

Lemma tokenize_mut_case_format :
  Printer.tokenize mut_case_format =
  [Printer.Lit "
                ";
   Printer.Var "Msg";
   Printer.Lit "_::";
   Printer.Var "case_enum_name";
   Printer.Lit "::";
   Printer.Var "case";
   Printer.Lit " =>
                    ";
   Printer.Var "Msg";
   Printer.Lit "_::";
   Printer.Var "mut_enum_name";
   Printer.Lit "::";
   Printer.Var "case";
   Printer.Lit "(
                        self.";
   Printer.Var "rs_mut_getter";
   Printer.Lit "().try_into_mut().unwrap()),
               "].
Proof. reflexivity. Qed.

Lemma tokenize_getter_format :
  Printer.tokenize getter_format =
  [Printer.Lit "
          pub fn ";
   Printer.Var "oneof_name";
   Printer.Lit "(&self) -> ";
   Printer.Var "Msg";
   Printer.Lit "_::";
   Printer.Var "view_enum_name";
   Printer.Lit " {
            match unsafe { ";
   Printer.Var "case_thunk";
   Printer.Lit "(self.raw_msg()) } {
              ";
   Printer.Var "view_cases";
   Printer.Lit "
              _ => ";
   Printer.Var "Msg";
   Printer.Lit "_::";
   Printer.Var "view_enum_name";
   Printer.Lit "::not_set(std::marker::PhantomData)
            }
          }
          "].
Proof. reflexivity. Qed.

Lemma tokenize_getter_mut_format :
  Printer.tokenize getter_mut_format =
  [Printer.Lit "
          pub fn ";
   Printer.Var "oneof_name";
   Printer.Lit "_mut(&mut self) -> ";
   Printer.Var "Msg";
   Printer.Lit "_::";
   Printer.Var "mut_enum_name";
   Printer.Lit " {
          match unsafe { ";
   Printer.Var "case_thunk";
   Printer.Lit "(self.raw_msg()) } {
            ";
   Printer.Var "mut_cases";
   Printer.Lit "
            _ => ";
   Printer.Var "Msg";
   Printer.Lit "_::";
   Printer.Var "mut_enum_name";
   Printer.Lit "::not_set(std::marker::PhantomData)
          }
        }
        "].
Proof. reflexivity. Qed.

Lemma tokenize_accessors_format :
  Printer.tokenize accessors_format =
  [Printer.Lit "
        ";
   Printer.Var "getter";
   Printer.Lit "
        ";
   Printer.Var "getter_mut";
   Printer.Lit "
      "].
Proof. reflexivity. Qed.

Lemma tokenize_extern_c_format :
  Printer.tokenize extern_c_format =
  [Printer.Lit "
        fn ";
   Printer.Var "case_thunk";
   Printer.Lit "(raw_msg: ";
   Printer.Var "pbi";
   Printer.Lit "::RawMessage) -> ";
   Printer.Var "Msg";
   Printer.Lit "_::";
   Printer.Var "case_enum_rs_name";
   Printer.Lit ";
      "].
Proof. reflexivity. Qed.

Lemma tokenize_thunk_cc_format :
  Printer.tokenize thunk_cc_format =
  [Printer.Lit "
        ";
   Printer.Var "QualifiedMsg";
   Printer.Lit "::";
   Printer.Var "case_enum_name";
   Printer.Lit " ";
   Printer.Var "case_thunk";
   Printer.Lit "(";
   Printer.Var "QualifiedMsg";
   Printer.Lit "* msg) {
          return msg->";
   Printer.Var "oneof_name";
   Printer.Lit "_case();
        }
      "].
Proof. reflexivity. Qed.

Section AccessorTexts.
Context `{Externals}.

Lemma view_cases_map (ctx : Context) (oneof : OneofDescriptor.t) :
  kinds_in_closed_set oneof = true ->
  primitive_paths_named ctx oneof = true ->
  view_cases ctx oneof =
  Ok (map (view_case_call ctx) (filter bindable (OneofDescriptor.fields oneof))).
Proof.
  intros Hk Hp. unfold view_cases.
  rewrite (for_each_field_flat_map _ _
             (fun field => if bindable field
                           then [view_case_call ctx field] else [])).
  - now rewrite flat_map_filter.
  - intros field Hin.
    rewrite (RsTypeNameView_returns ctx field)
      by (eapply kinds_in_closed_set_In; eassumption).
    cbn [bind].
    rewrite view_type_empty
      by (eauto using kinds_in_closed_set_In, primitive_paths_named_In).
    unfold bindable. now destruct (FieldDescriptor.has_ctype field).
Qed.

Lemma mut_cases_map (ctx : Context) (oneof : OneofDescriptor.t) :
  kinds_in_closed_set oneof = true ->
  mut_cases ctx oneof =
  Ok (map (mut_case_call ctx) (filter bindable (OneofDescriptor.fields oneof))).
Proof.
  intros Hk. unfold mut_cases.
  rewrite (for_each_field_flat_map _ _
             (fun field => if bindable field
                           then [mut_case_call ctx field] else [])).
  - now rewrite flat_map_filter.
  - intros field Hin.
    rewrite (RsTypeNameMut_returns ctx field)
      by (eapply kinds_in_closed_set_In; eassumption).
    cbn [bind].
    rewrite mut_type_empty by (eauto using kinds_in_closed_set_In).
    unfold bindable. now destruct (FieldDescriptor.has_ctype field).
Qed.

(** An arm of the read accessor, expanded where the frames bind the names
    of the message and of the two enums. *)
Lemma expand_view_case_call (depth : nat) (frames : list Printer.Frame)
    (ctx : Context) (field : FieldDescriptor.t)
    (Msg case_enum_name view_enum_name : string) :
  Printer.lookup "Msg" frames = Some (Text Msg) ->
  Printer.lookup "case_enum_name" frames = Some (Text case_enum_name) ->
  Printer.lookup "view_enum_name" frames = Some (Text view_enum_name) ->
  Printer.expand (S depth) frames (view_case_call ctx field) =
  Some (Ok (view_arm_text Msg case_enum_name view_enum_name
              (OneofCaseRsName field)
              (RsSafeName (FieldDescriptor.name field)))).
Proof.
  intros HMsg Hcase Hview. unfold view_case_call.
  expand_with tokenize_view_case_format.
  rewrite HMsg, Hcase, Hview. reflexivity.
Qed.

Lemma expand_mut_case_call (depth : nat) (frames : list Printer.Frame)
    (ctx : Context) (field : FieldDescriptor.t)
    (Msg case_enum_name mut_enum_name : string) :
  Printer.lookup "Msg" frames = Some (Text Msg) ->
  Printer.lookup "case_enum_name" frames = Some (Text case_enum_name) ->
  Printer.lookup "mut_enum_name" frames = Some (Text mut_enum_name) ->
  Printer.expand (S depth) frames (mut_case_call ctx field) =
  Some (Ok (mut_arm_text Msg case_enum_name mut_enum_name
              (OneofCaseRsName field)
              (FieldDescriptor.name field ++ "_mut"))).
Proof.
  intros HMsg Hcase Hmut. unfold mut_case_call.
  expand_with tokenize_mut_case_format.
  rewrite HMsg, Hcase, Hmut. reflexivity.
Qed.

(** The read accessor, expanded where the frames bind what its format and
    its arms mention. *)
Lemma expand_getter_call (depth : nat) (frames : list Printer.Frame)
    (ctx : Context) (fields : list FieldDescriptor.t)
    (Msg oneof_name view_enum_name case_enum_name case_thunk : string) :
  Printer.lookup "Msg" frames = Some (Text Msg) ->
  Printer.lookup "oneof_name" frames = Some (Text oneof_name) ->
  Printer.lookup "view_enum_name" frames = Some (Text view_enum_name) ->
  Printer.lookup "case_enum_name" frames = Some (Text case_enum_name) ->
  Printer.lookup "case_thunk" frames = Some (Text case_thunk) ->
  Printer.lookup "view_cases" frames =
    Some (Callback (Ok (map (view_case_call ctx) fields))) ->
  Printer.expand (2 + depth) frames (Emit [] getter_format) =
  Some (Ok (getter_text Msg oneof_name view_enum_name case_thunk
              (join (map (fun field =>
                            view_arm_text Msg case_enum_name view_enum_name
                              (OneofCaseRsName field)
                              (RsSafeName (FieldDescriptor.name field)))
                         fields)))).
Proof.
  intros HMsg Hname Hview Hcase Hthunk Hcases.
  change (2 + depth) with (S (S depth)).
  expand_with tokenize_getter_format.
  rewrite HMsg, Hname, Hview, Hthunk, Hcases.
  cbn [Printer.expand_body]. rewrite map_map.
  rewrite (concat_runs_map_ok _
             (fun field =>
                view_arm_text Msg case_enum_name view_enum_name
                  (OneofCaseRsName field)
                  (RsSafeName (FieldDescriptor.name field))))
    by (intros field _; apply expand_view_case_call; assumption).
  reflexivity.
Qed.

Lemma expand_getter_mut_call (depth : nat) (frames : list Printer.Frame)
    (ctx : Context) (fields : list FieldDescriptor.t)
    (Msg oneof_name mut_enum_name case_enum_name case_thunk : string) :
  Printer.lookup "Msg" frames = Some (Text Msg) ->
  Printer.lookup "oneof_name" frames = Some (Text oneof_name) ->
  Printer.lookup "mut_enum_name" frames = Some (Text mut_enum_name) ->
  Printer.lookup "case_enum_name" frames = Some (Text case_enum_name) ->
  Printer.lookup "case_thunk" frames = Some (Text case_thunk) ->
  Printer.lookup "mut_cases" frames =
    Some (Callback (Ok (map (mut_case_call ctx) fields))) ->
  Printer.expand (2 + depth) frames (Emit [] getter_mut_format) =
  Some (Ok (getter_mut_text Msg oneof_name mut_enum_name case_thunk
              (join (map (fun field =>
                            mut_arm_text Msg case_enum_name mut_enum_name
                              (OneofCaseRsName field)
                              (FieldDescriptor.name field ++ "_mut"))
                         fields)))).
Proof.
  intros HMsg Hname Hmut Hcase Hthunk Hcases.
  change (2 + depth) with (S (S depth)).
  expand_with tokenize_getter_mut_format.
  rewrite HMsg, Hname, Hmut, Hthunk, Hcases.
  cbn [Printer.expand_body]. rewrite map_map.
  rewrite (concat_runs_map_ok _
             (fun field =>
                mut_arm_text Msg case_enum_name mut_enum_name
                  (OneofCaseRsName field)
                  (FieldDescriptor.name field ++ "_mut")))
    by (intros field _; apply expand_mut_case_call; assumption).
  reflexivity.
Qed.

Lemma run_GenerateOneofAccessors (ctx : Context) (oneof : OneofDescriptor.t)
    (accessor_case : AccessorCase) (depth : nat) (p : Printer.t)
    (Msg : string) :
  kinds_in_closed_set oneof = true ->
  primitive_paths_named ctx oneof = true ->
  Printer.lookup "Msg" (Printer.frames p) = Some (Text Msg) ->
  Printer.run (3 + depth) (GenerateOneofAccessors ctx oneof accessor_case) p =
  Some (Ok (Printer.Build
              (Printer.output p
                 ++ accessors_expected ctx oneof accessor_case Msg)
              (Printer.frames p))).
Proof.
  intros Hk Hp HMsg. unfold Printer.run, GenerateOneofAccessors.
  change (3 + depth) with (S (2 + depth)).
  cbn [map]. expand_with tokenize_accessors_format.
  unfold getter. rewrite view_cases_map, mut_cases_map by assumption.
  cbn [Printer.expand_body map].
  erewrite expand_getter_call by (cbn; first [exact HMsg | reflexivity]).
  unfold accessors_expected.
  destruct accessor_case; cbn [getter_mut AccessorCase_is_VIEW];
    cbn [Printer.expand_body map];
    try (erewrite expand_getter_mut_call
           by (cbn; first [exact HMsg | reflexivity]));
    rewrite !concat_runs_one; reflexivity.
Qed.

End AccessorTexts.

(** ** Occurrences in a text *)

Lemma prefix_append (needle rest : string) :
  String.prefix needle (needle ++ rest) = true.
Proof.
  induction needle as [|c needle IH]; simpl.
  - now destruct rest.
  - destruct (ascii_dec c c) as [_ | Hne]; [exact IH | now elim Hne].
Qed.

Lemma mentions_prefix (needle text : string) :
  String.prefix needle text = true -> mentions needle text = true.
Proof.
  intros Hprefix. destruct text; cbn [mentions]; rewrite Hprefix; reflexivity.
Qed.

Lemma mentions_append (needle before after : string) :
  mentions needle (before ++ needle ++ after) = true.
Proof.
  induction before as [|c before IH].
  - change ("" ++ needle ++ after) with (needle ++ after).
    apply mentions_prefix, prefix_append.
  - cbn [append mentions]. rewrite IH. apply orb_true_r.
Qed.

Lemma mentions_append_r (needle before after : string) :
  mentions needle after = true -> mentions needle (before ++ after) = true.
Proof.
  intros Hafter. induction before as [|c before IH].
  - exact Hafter.
  - cbn [append mentions]. rewrite IH. apply orb_true_r.
Qed.

Lemma union_enums_text_mentions_mut
    (view_name view_variants mut_name mut_variants after : string) :
  mentions ("pub enum " ++ mut_name ++ "<'msg> {")
           (union_enums_text view_name view_variants mut_name mut_variants
              ++ after) = true.
Proof.
  unfold union_enums_text.
  match goal with
  | |- mentions ?needle ?text = true =>
      replace text with
        (("
      #[non_exhaustive]
      #[derive(Debug, Clone, Copy)]
      #[allow(dead_code)]
      #[repr(isize)]
      pub enum " ++ view_name ++ "<'msg> {
        " ++ view_variants ++ "

        #[allow(non_camel_case_types)]
        not_set(std::marker::PhantomData<&'msg ()>) = 0
      }

      #[non_exhaustive]
      #[derive(Debug)]
      #[allow(dead_code)]
      #[repr(isize)]
      ")
           ++ needle
           ++ ("
        " ++ mut_variants ++ "

        #[allow(non_camel_case_types)]
        not_set(std::marker::PhantomData<&'msg ()>) = 0
      }

      " ++ after))
  end.
  - apply mentions_append.
  - rewrite !append_assoc. reflexivity.
Qed.

Lemma accessors_text_mentions_getter_mut
    (read_accessor Msg oneof_name mut_enum_name case_thunk mut_cases : string) :
  mentions ("pub fn " ++ oneof_name ++ "_mut(&mut self)")
           (accessors_text read_accessor
              (getter_mut_text Msg oneof_name mut_enum_name case_thunk
                 mut_cases)) = true.
Proof.
  unfold accessors_text, getter_mut_text.
  match goal with
  | |- mentions ?needle ?text = true =>
      replace text with
        (("
        " ++ read_accessor ++ "
        " ++ "
          ")
           ++ needle
           ++ (" -> " ++ Msg ++ "_::" ++ mut_enum_name ++ " {
          match unsafe { " ++ case_thunk
                 ++ "(self.raw_msg()) } {
            " ++ mut_cases ++ "
            _ => " ++ Msg ++ "_::" ++ mut_enum_name
                 ++ "::not_set(std::marker::PhantomData)
          }
        }
        " ++ "
      "))
  end.
  - apply mentions_append.
  - rewrite !append_assoc. reflexivity.
Qed.

(** ** The definitions, the declaration and the thunk as text *)

Section Texts.
Context `{Externals}.

Lemma run_GenerateOneofDefinition (ctx : Context) (oneof : OneofDescriptor.t)
    (depth : nat) (p : Printer.t) :
  kinds_in_closed_set oneof = true ->
  primitive_paths_named ctx oneof = true ->
  Printer.run (2 + depth) (GenerateOneofDefinition ctx oneof) p =
  Some (Ok (Printer.Build
              (Printer.output p ++ definition_expected ctx oneof)
              (Printer.frames p))).
Proof.
  intros Hk Hp. unfold Printer.run, GenerateOneofDefinition. cbn [map].
  rewrite expand_union_enums, expand_case_enum by assumption.
  cbn [Printer.concat_runs]. rewrite append_nil_r. reflexivity.
Qed.

(** C9: the declaration emitter writes the signature of an extern function
    that takes the raw message and returns the case enum of the group, and
    the thunk emitter writes, under the same name [ThunkName ctx oneof
    "case"], a C++ function that returns what the accessor [oneof_name_case()]
    of the message returns. *)
Theorem thunk_declared_and_defined (ctx : Context) (oneof : OneofDescriptor.t)
    (depth : nat) (p : Printer.t) (Msg pbi : string) :
  Printer.lookup "Msg" (Printer.frames p) = Some (Text Msg) ->
  Printer.lookup "pbi" (Printer.frames p) = Some (Text pbi) ->
  Printer.run (1 + depth) (GenerateOneofExternC ctx oneof) p =
  Some (Ok (Printer.Build
              (Printer.output p
                 ++ extern_c_text Msg pbi (OneofCaseEnumRsName oneof)
                      (ThunkName ctx oneof "case"))
              (Printer.frames p)))
  /\ Printer.run (1 + depth) (GenerateOneofThunkCc ctx oneof) p =
     Some (Ok (Printer.Build
                 (Printer.output p
                    ++ thunk_cc_text
                         (QualifiedClassName
                            (OneofDescriptor.containing_type oneof))
                         (OneofCaseEnumRsName oneof)
                         (ThunkName ctx oneof "case")
                         (OneofDescriptor.name oneof))
                 (Printer.frames p))).
Proof.
  intros HMsg Hpbi. change (1 + depth) with (S depth). split.
  - unfold Printer.run, GenerateOneofExternC. cbn [map].
    expand_with tokenize_extern_c_format.
    rewrite HMsg, Hpbi. rewrite concat_runs_one. reflexivity.
  - unfold Printer.run, GenerateOneofThunkCc. cbn [map].
    expand_with tokenize_thunk_cc_format.
    rewrite concat_runs_one. reflexivity.
Qed.

(** C3, as the code has it: the definition emitter takes no accessor case
    and writes the mut union for every group; what depends on the accessor
    case is the mutate accessor, which is left out for [VIEW] and written
    for the other cases. *)
Theorem mut_union_emitted_whatever_the_accessor_case (ctx : Context)
    (oneof : OneofDescriptor.t) (accessor_case : AccessorCase)
    (depth : nat) (p : Printer.t) (Msg : string) :
  kinds_in_closed_set oneof = true ->
  primitive_paths_named ctx oneof = true ->
  Printer.lookup "Msg" (Printer.frames p) = Some (Text Msg) ->
  (exists text,
      Printer.run (2 + depth) (GenerateOneofDefinition ctx oneof) p =
      Some (Ok (Printer.Build (Printer.output p ++ text) (Printer.frames p)))
      /\ emits_mut_union oneof text = true)
  /\ (exists text,
         Printer.run (3 + depth)
           (GenerateOneofAccessors ctx oneof accessor_case) p =
         Some (Ok (Printer.Build (Printer.output p ++ text)
                                 (Printer.frames p)))
         /\ text = accessors_expected ctx oneof accessor_case Msg
         /\ (accessor_case = VIEW ->
             exists read_accessor, text = accessors_text read_accessor "")
         /\ (accessor_case <> VIEW -> emits_getter_mut oneof text = true)).
Proof.
  intros Hk Hp HMsg. split.
  - exists (definition_expected ctx oneof).
    split; [now apply run_GenerateOneofDefinition |].
    unfold definition_expected. apply union_enums_text_mentions_mut.
  - exists (accessors_expected ctx oneof accessor_case Msg).
    split; [now apply run_GenerateOneofAccessors |].
    split; [reflexivity |].
    split.
    + intros ->. eexists. reflexivity.
    + intros Hcase. unfold accessors_expected.
      destruct accessor_case; try (now elim Hcase);
        apply accessors_text_mentions_getter_mut.
Qed.

End Texts.

(** ** What a run of the definition emitter writes *)

Section DefinitionRun.
Context `{Externals}.

(** The run of [GenerateOneofDefinition] is its two calls in order: when the
    first, for the unions, is fatal nothing follows it; when it gives a text
    the text of the case enum is appended to it. *)
Lemma run_GenerateOneofDefinition_outcome (ctx : Context)
    (oneof : OneofDescriptor.t) (depth : nat) (p : Printer.t) :
  Printer.run (2 + depth) (GenerateOneofDefinition ctx oneof) p =
  match Printer.expand (2 + depth) (Printer.frames p)
                       (union_enums ctx oneof) with
  | Some (Ok unions) =>
      Some (Ok (Printer.Build
                  (Printer.output p
                     ++ unions
                     ++ case_enum_text
                          (OneofCaseEnumRsName oneof)
                          (join (map (fun field =>
                                        case_text
                                          (OneofCaseRsName field)
                                          (to_string
                                             (FieldDescriptor.number field)))
                                     (OneofDescriptor.fields oneof))))
                  (Printer.frames p)))
  | Some (Fatal msg) => Some (Fatal msg)
  | None => None
  end.
Proof.
  unfold Printer.run, GenerateOneofDefinition. cbn [map].
  rewrite expand_case_enum.
  destruct (Printer.expand (2 + depth) (Printer.frames p)
                           (union_enums ctx oneof))
    as [[unions | msg] |]; cbn [Printer.concat_runs]; try reflexivity.
  now rewrite append_nil_r.
Qed.

(** C1: the case enumeration has one entry for every field of the group,
    bindable or not, in declaration order and with the declared number as
    discriminant, followed by the entry not_set with discriminant 0; with N
    bindable and M non-bindable fields that is N+M+1 entries.  A run of
    [GenerateOneofDefinition] writes this enum, the entries between the
    opening of the enum and the closing [not_set = 0], right after the text
    of the two unions; it writes nothing when the call for the unions is
    fatal, and for a group with kinds of the closed set and named primitive
    types it writes the two unions and this enum. *)
Theorem case_enum_lists_every_field (ctx : Context)
    (oneof : OneofDescriptor.t) (depth : nat) (p : Printer.t) :
  let fields := OneofDescriptor.fields oneof in
  let enum_text :=
    case_enum_text
      (OneofCaseEnumRsName oneof)
      (join (map (fun field =>
                    case_text (OneofCaseRsName field)
                              (to_string (FieldDescriptor.number field)))
                 fields)) in
  exists calls,
    cases oneof = Ok calls
    /\ Generated.case_enum_entries calls =
       (map (fun field =>
               Some (OneofCaseRsName field, FieldDescriptor.number field))
            fields
          ++ [Some ("not_set", 0%Z)])%list
    /\ List.length (Generated.case_enum_entries calls) =
       List.length (filter bindable fields)
       + List.length (filter (fun field => negb (bindable field)) fields) + 1
    /\ Printer.expand (2 + depth) (Printer.frames p) (case_enum oneof) =
       Some (Ok enum_text)
    /\ Printer.run (2 + depth) (GenerateOneofDefinition ctx oneof) p =
       match Printer.expand (2 + depth) (Printer.frames p)
                            (union_enums ctx oneof) with
       | Some (Ok unions) =>
           Some (Ok (Printer.Build (Printer.output p ++ unions ++ enum_text)
                                   (Printer.frames p)))
       | Some (Fatal msg) => Some (Fatal msg)
       | None => None
       end
    /\ (kinds_in_closed_set oneof = true ->
        primitive_paths_named ctx oneof = true ->
        Printer.run (2 + depth) (GenerateOneofDefinition ctx oneof) p =
        Some (Ok (Printer.Build
                    (Printer.output p ++ definition_expected ctx oneof)
                    (Printer.frames p)))).
Proof.
  intros fields enum_text. exists (map case_call fields).
  assert (Hentries : map Generated.entry (map case_call fields) =
                     map (fun field =>
                            Some (OneofCaseRsName field,
                                  FieldDescriptor.number field)) fields).
  { rewrite map_map. apply map_ext. intros field. apply entry_case_call. }
  split; [apply cases_map |].
  split; [unfold Generated.case_enum_entries; now rewrite Hentries |].
  split.
  { unfold Generated.case_enum_entries.
    rewrite length_app, !length_map. simpl.
    rewrite (length_filter_split bindable fields). reflexivity. }
  split; [apply expand_case_enum |].
  split; [apply run_GenerateOneofDefinition_outcome |].
  intros Hk Hp. now apply run_GenerateOneofDefinition.
Qed.

(** C2: the view union has one variant for each bindable field, in
    declaration order, with the declared number as discriminant and the type
    of the read-view mapper as payload, followed by the variant not_set with
    discriminant 0 and the lifetime-only placeholder; with N bindable fields
    that is N+1 variants, and not_set alone when no field is bindable.  A
    run of [GenerateOneofDefinition] writes this union first, then the mut
    union and the case enum. *)
Theorem view_union_variants (ctx : Context) (oneof : OneofDescriptor.t)
    (depth : nat) (p : Printer.t) :
  kinds_in_closed_set oneof = true ->
  primitive_paths_named ctx oneof = true ->
  let bindables := filter bindable (OneofDescriptor.fields oneof) in
  let unions_text :=
    union_enums_text
      (OneofViewEnumRsName oneof)
      (join (map (fun field =>
                    variant_text
                      (OneofCaseRsName field) (view_type ctx field)
                      (to_string (FieldDescriptor.number field)))
                 bindables))
      (OneofMutEnumRsName oneof)
      (join (map (fun field =>
                    variant_text
                      (OneofCaseRsName field) (mut_type ctx field)
                      (to_string (FieldDescriptor.number field)))
                 bindables)) in
  exists calls,
    view_fields ctx oneof = Ok calls
    /\ Generated.union_variants calls =
       (map (fun field =>
               Some (OneofCaseRsName field, view_type ctx field,
                     FieldDescriptor.number field))
            bindables
          ++ [not_set_variant])%list
    /\ Forall (fun field =>
                 RsTypeNameView ctx field = Ok (view_type ctx field)
                 /\ empty (view_type ctx field) = false)
              bindables
    /\ List.length (Generated.union_variants calls) =
       List.length bindables + 1
    /\ (bindables = [] -> Generated.union_variants calls = [not_set_variant])
    /\ Printer.expand (2 + depth) (Printer.frames p) (union_enums ctx oneof) =
       Some (Ok unions_text)
    /\ Printer.run (2 + depth) (GenerateOneofDefinition ctx oneof) p =
       Some (Ok (Printer.Build
                   (Printer.output p
                      ++ unions_text
                      ++ case_enum_text
                           (OneofCaseEnumRsName oneof)
                           (join (map (fun field =>
                                         case_text
                                           (OneofCaseRsName field)
                                           (to_string
                                              (FieldDescriptor.number field)))
                                      (OneofDescriptor.fields oneof))))
                   (Printer.frames p))).
Proof.
  intros Hk Hp bindables unions_text.
  exists (map (view_field_call ctx) bindables).
  assert (Hvariants :
            Generated.union_variants (map (view_field_call ctx) bindables) =
            (map (fun field =>
                    Some (OneofCaseRsName field, view_type ctx field,
                          FieldDescriptor.number field)) bindables
               ++ [not_set_variant])%list).
  { unfold Generated.union_variants. rewrite map_map. f_equal.
    apply map_ext. intros field. apply variant_view_field_call. }
  split; [now apply view_fields_map |].
  split; [exact Hvariants |].
  split.
  { apply Forall_forall. intros field Hin.
    apply filter_In in Hin. destruct Hin as [Hin Hb].
    pose proof (kinds_in_closed_set_In _ _ Hk Hin) as Hkf.
    split; [now apply RsTypeNameView_returns |].
    rewrite view_type_empty
      by (eauto using primitive_paths_named_In).
    unfold bindable in Hb. now destruct (FieldDescriptor.has_ctype field). }
  split; [rewrite Hvariants, length_app, length_map; reflexivity |].
  split; [intros Hnone; rewrite Hvariants, Hnone; reflexivity |].
  split; [now apply expand_union_enums |].
  rewrite run_GenerateOneofDefinition_outcome.
  rewrite expand_union_enums by assumption. reflexivity.
Qed.

End DefinitionRun.

(** ** Dispatch of the generated accessors *)

Lemma distinctb_NoDup {A : Type} (eqb : A -> A -> bool) (l : list A) :
  (forall x y, eqb x y = true <-> x = y) ->
  distinctb eqb l = true -> NoDup l.
Proof.
  intros Heqb. induction l as [|x l IH]; simpl; intros Hd.
  - constructor.
  - apply andb_true_iff in Hd. destruct Hd as [Hx Hl].
    constructor; [| now apply IH].
    intros Hin. apply negb_true_iff in Hx.
    assert (existsb (eqb x) l = true) as Hex; [| congruence].
    apply existsb_exists. exists x. split; [exact Hin | now apply Heqb].
Qed.


(** In a list without repeated keys, searching for the key of a member
    finds that member. *)
Lemma find_by_key {A B : Type} (key : A -> B) (eqb : B -> B -> bool)
    (l : list A) (x : A) :
  (forall a b, eqb a b = true <-> a = b) ->
  NoDup (map key l) -> In x l ->
  find (fun y => eqb (key y) (key x)) l = Some x.
Proof.
  intros Heqb. induction l as [|y l IH]; simpl; intros Hnd Hin; [easy |].
  inversion Hnd as [|k ks Hnotin Hrest]; subst.
  destruct (eqb (key y) (key x)) eqn:E.
  - apply Heqb in E. destruct Hin as [-> | Hin]; [reflexivity |].
    elim Hnotin. rewrite E. now apply in_map.
  - destruct Hin as [-> | Hin]; [| now apply IH].
    assert (eqb (key x) (key x) = true) by now apply Heqb.
    congruence.
Qed.


Section Dispatch.
Context `{Externals}.

Lemma discriminant_case_call (fields : list FieldDescriptor.t)
    (field : FieldDescriptor.t) :
  NoDup (map OneofCaseRsName fields) -> In field fields ->
  Generated.discriminant (map case_call fields) (OneofCaseRsName field) =
  Some (FieldDescriptor.number field).
Proof.
  induction fields as [|g fields IH]; simpl; intros Hnd Hin; [easy |].
  inversion Hnd as [|k ks Hnotin Hrest]; subst.
  rewrite entry_case_call.
  destruct (String.eqb_spec (OneofCaseRsName g) (OneofCaseRsName field))
    as [E | E].
  - destruct Hin as [-> | Hin]; [reflexivity |].
    elim Hnotin. rewrite E. now apply in_map.
  - destruct Hin as [-> | Hin]; [now elim E | now apply IH].
Qed.

(** The arms are those of the first field whose number is the tag. *)
Lemma take_arm_find (entries : list EmitCall)
    (arm : FieldDescriptor.t -> EmitCall) (accessor_var : string)
    (accessor : FieldDescriptor.t -> string)
    (fields : list FieldDescriptor.t) (tag : Z) :
  (forall field, In field fields ->
     Generated.var_text "case" (arm field) = Some (OneofCaseRsName field)
     /\ Generated.var_text accessor_var (arm field) = Some (accessor field)
     /\ Generated.discriminant entries (OneofCaseRsName field) =
        Some (FieldDescriptor.number field)) ->
  Generated.take_arm entries (map arm fields) accessor_var tag =
  match find (fun field => Z.eqb (FieldDescriptor.number field) tag) fields with
  | Some field => Generated.Wrap (OneofCaseRsName field) (accessor field)
  | None => Generated.NotSet
  end.
Proof.
  induction fields as [|g fields IH]; simpl; intros Harm; [reflexivity |].
  destruct (Harm g (or_introl eq_refl)) as (Hcase & Hacc & Hdisc).
  rewrite Hcase, Hacc, Hdisc.
  destruct (Z.eqb (FieldDescriptor.number g) tag); [reflexivity |].
  apply IH. intros field Hin. apply Harm. now right.
Qed.

(** On the discriminant of a value of the case enum the generated match
    takes the arm of the first field whose number is the tag. *)
Lemma dispatch_find (entries : list EmitCall)
    (arm : FieldDescriptor.t -> EmitCall) (accessor_var : string)
    (accessor : FieldDescriptor.t -> string)
    (fields : list FieldDescriptor.t) (tag : Z) :
  Generated.is_discriminant entries tag = true ->
  (forall field, In field fields ->
     Generated.var_text "case" (arm field) = Some (OneofCaseRsName field)
     /\ Generated.var_text accessor_var (arm field) = Some (accessor field)
     /\ Generated.discriminant entries (OneofCaseRsName field) =
        Some (FieldDescriptor.number field)) ->
  Generated.dispatch entries (map arm fields) accessor_var tag =
  match find (fun field => Z.eqb (FieldDescriptor.number field) tag) fields with
  | Some field => Generated.Wrap (OneofCaseRsName field) (accessor field)
  | None => Generated.NotSet
  end.
Proof.
  intros Hdisc Harm. destruct fields as [|g fields]; [reflexivity |].
  unfold Generated.dispatch. cbn [map]. rewrite Hdisc.
  now apply (take_arm_find entries arm accessor_var accessor (g :: fields)).
Qed.


(** The discriminants of the case enum are 0 and the numbers of the
    fields. *)
Lemma is_discriminant_cases (oneof : OneofDescriptor.t) (tag : Z) :
  Generated.is_discriminant
    (map case_call (OneofDescriptor.fields oneof)) tag =
  tag_in_case_enum oneof tag.
Proof.
  unfold Generated.is_discriminant, Generated.case_enum_entries,
    tag_in_case_enum.
  rewrite existsb_app. cbn [existsb]. rewrite orb_false_r.
  rewrite (Z.eqb_sym 0 tag), orb_comm. f_equal.
  induction (OneofDescriptor.fields oneof) as [|field fields IH];
    [reflexivity |].
  cbn [map existsb]. rewrite entry_case_call, IH. reflexivity.
Qed.


(** The mutate accessor as a search among the bindable fields. *)
Lemma mutate_accessor_find (ctx : Context) (oneof : OneofDescriptor.t)
    (tag : Z) :
  kinds_in_closed_set oneof = true ->
  distinct_case_names oneof = true ->
  tag_in_case_enum oneof tag = true ->
  Generated.mutate_accessor ctx oneof tag =
  Ok match find (fun field => Z.eqb (FieldDescriptor.number field) tag)
                (filter bindable (OneofDescriptor.fields oneof)) with
     | Some field =>
         Generated.Wrap (OneofCaseRsName field)
                        (FieldDescriptor.name field ++ "_mut")
     | None => Generated.NotSet
     end.
Proof.
  intros Hk Hnames Htag. unfold Generated.mutate_accessor.
  rewrite cases_map, mut_cases_map by assumption. cbn [bind]. f_equal.
  apply dispatch_find; [now rewrite is_discriminant_cases |].
  intros field Hin. apply filter_In in Hin.
  repeat split; try reflexivity.
  apply discriminant_case_call; [| tauto].
  apply (distinctb_NoDup String.eqb); [apply String.eqb_eq | exact Hnames].
Qed.



End Dispatch.

(** ** The unwrap of the mutate accessor *)

Lemma list_ascii_of_string_append (a b : string) :
  list_ascii_of_string (a ++ b) =
  (list_ascii_of_string a ++ list_ascii_of_string b)%list.
Proof.
  induction a as [|c a IH]; simpl; [reflexivity | now rewrite IH].
Qed.

Lemma append_inv_tail (a b tail : string) :
  a ++ tail = b ++ tail -> a = b.
Proof.
  intros E. apply (f_equal list_ascii_of_string) in E.
  rewrite !list_ascii_of_string_append in E. apply app_inv_tail in E.
  apply (f_equal string_of_list_ascii) in E.
  now rewrite !string_of_list_ascii_of_string in E.
Qed.

Section Unwrap.
Context `{Externals}.

(** The accessor [name_mut] is the one of the field called [name]. *)
Lemma field_of_mut_accessor_own (oneof : OneofDescriptor.t)
    (field : FieldDescriptor.t) :
  distinct_names oneof = true ->
  In field (OneofDescriptor.fields oneof) ->
  Generated.field_of_mut_accessor oneof (FieldDescriptor.name field ++ "_mut") =
  Some field.
Proof.
  intros Hnames Hin. unfold Generated.field_of_mut_accessor.
  apply (find_by_key (fun g => FieldDescriptor.name g ++ "_mut") String.eqb);
    [apply String.eqb_eq | | exact Hin].
  rewrite <- (map_map FieldDescriptor.name (fun n => n ++ "_mut")).
  apply Injective_map_NoDup.
  - intros a b. apply append_inv_tail.
  - apply (distinctb_NoDup String.eqb); [apply String.eqb_eq | exact Hnames].
Qed.

Lemma unwrap_mut_present (oneof : OneofDescriptor.t)
    (kernel : Generated.Kernel) (field : FieldDescriptor.t) :
  distinct_names oneof = true ->
  Generated.tag_agrees_with_presence oneof kernel = true ->
  In field (OneofDescriptor.fields oneof) ->
  FieldDescriptor.number field = Generated.case_tag kernel ->
  Generated.unwrap_mut oneof kernel (FieldDescriptor.name field ++ "_mut") =
  Generated.Unwrapped_ok.
Proof.
  intros Hnames Hagree Hin Htag. unfold Generated.unwrap_mut.
  rewrite field_of_mut_accessor_own by assumption.
  unfold Generated.tag_agrees_with_presence in Hagree.
  apply andb_true_iff in Hagree. destruct Hagree as [_ Hagree].
  rewrite forallb_forall in Hagree. specialize (Hagree field Hin).
  rewrite Htag, Z.eqb_refl in Hagree. simpl in Hagree. now rewrite Hagree.
Qed.

(** C5: when the case-tag query of the kernel agrees with the presence of
    the fields, the tag being 0 or the number of a field of the group and
    naming no absent field, the unwrap in the arm the mutate accessor takes
    does not panic, and neither would the unwrap of any arm whose field the
    tag names. *)
Theorem mutate_unwrap_never_panics (ctx : Context) (oneof : OneofDescriptor.t)
    (kernel : Generated.Kernel) :
  kinds_in_closed_set oneof = true ->
  distinct_case_names oneof = true ->
  distinct_names oneof = true ->
  Generated.tag_agrees_with_presence oneof kernel = true ->
  Generated.mutate_unwrap ctx oneof kernel = Ok Generated.Unwrapped_ok
  /\ (forall field, In field (OneofDescriptor.fields oneof) ->
        FieldDescriptor.number field = Generated.case_tag kernel ->
        Generated.unwrap_mut oneof kernel
          (FieldDescriptor.name field ++ "_mut") = Generated.Unwrapped_ok).
Proof.
  intros Hk Hcases Hnames Hagree.
  assert (Hvalid : tag_in_case_enum oneof (Generated.case_tag kernel) = true).
  { unfold Generated.tag_agrees_with_presence in Hagree.
    apply andb_true_iff in Hagree. exact (proj1 Hagree). }
  split.
  - unfold Generated.mutate_unwrap.
    rewrite mutate_accessor_find by assumption. cbn [bind].
    destruct (find _ _) as [field |] eqn:Hfind; [| reflexivity].
    apply find_some in Hfind. destruct Hfind as [Hin Htag].
    apply filter_In in Hin. apply Z.eqb_eq in Htag. f_equal.
    apply unwrap_mut_present; tauto.
  - intros field Hin Htag. now apply unwrap_mut_present.
Qed.

End Unwrap.

(** ** The type mappers on every kind *)

Section MapperTable.
Context `{Externals}.

(** C6: both mappers answer unsupported, the empty type, for a field with
    the legacy flag.  For the other fields the read-view mapper gives the
    plain type path for the numeric and boolean kinds, a borrowed byte slice
    with the lifetime of the message for bytes, a borrowed ProtoStr with that
    lifetime for strings, and a View of the type path with that lifetime for
    messages and enums. *)
Theorem type_mappers_table (ctx : Context) (field : FieldDescriptor.t) :
  let kind := GetRustFieldType (FieldDescriptor.type field) in
  (FieldDescriptor.has_ctype field = true ->
     RsTypeNameView ctx field = Ok "" /\ RsTypeNameMut ctx field = Ok "")
  /\ (FieldDescriptor.has_ctype field = false ->
      (kind_primitive kind = true ->
         RsTypeNameView ctx field = Ok (RsTypePath ctx field))
      /\ (kind = BYTES -> RsTypeNameView ctx field = Ok "&'msg [u8]")
      /\ (kind = STRING ->
            RsTypeNameView ctx field = Ok "&'msg ::__pb::ProtoStr")
      /\ (kind = MESSAGE \/ kind = ENUM ->
            RsTypeNameView ctx field =
            Ok ("::__pb::View<'msg, " ++ RsTypePath ctx field ++ ">"))).
Proof.
  intros kind. split.
  - intros Hc. split;
      [now apply RsTypeNameView_legacy | now apply RsTypeNameMut_legacy].
  - intros Hc. unfold RsTypeNameView. rewrite Hc. fold kind.
    repeat split.
    + destruct kind; simpl; intros Hprim; (reflexivity || discriminate).
    + now intros ->.
    + now intros ->.
    + now intros [-> | ->].
Qed.

Lemma for_each_field_fatal (fields : list FieldDescriptor.t)
    (round : FieldDescriptor.t -> Result (list EmitCall))
    (field : FieldDescriptor.t) (msg : string) :
  In field fields -> round field = Fatal msg ->
  exists first, for_each_field fields round = Fatal first.
Proof.
  induction fields as [|g fields IH]; simpl; intros Hin Hfatal; [easy |].
  destruct (round g) as [calls | first] eqn:Hg; cbn [bind].
  - destruct Hin as [-> | Hin]; [congruence |].
    destruct (IH Hin Hfatal) as [first Hfirst].
    exists first. now rewrite Hfirst.
  - now exists first.
Qed.

Lemma mappers_fatal (ctx : Context) (field : FieldDescriptor.t) :
  FieldDescriptor.has_ctype field = false ->
  kind_supported (GetRustFieldType (FieldDescriptor.type field)) = false ->
  RsTypeNameView ctx field =
    Fatal ("Unexpected field type: " ++ FieldDescriptor.type_name field)
  /\ RsTypeNameMut ctx field =
       Fatal ("Unexpected field type: " ++ FieldDescriptor.type_name field).
Proof.
  intros Hc Hk.
  unfold RsTypeNameView, RsTypeNameMut, GetRustFieldType_of_field.
  rewrite Hc.
  destruct (GetRustFieldType (FieldDescriptor.type field));
    try discriminate; split; reflexivity.
Qed.

(** C7, as the code has it: a field without the legacy flag whose kind is
    outside the closed set makes both mappers fatal and aborts the
    generation of the definitions; a field with the legacy flag is answered
    unsupported before its kind is looked at; and when every kind is of the
    closed set both mappers return for every field. *)
Theorem unlisted_kind_is_fatal_unless_legacy (ctx : Context)
    (oneof : OneofDescriptor.t) (depth : nat) (p : Printer.t) :
  (forall field, In field (OneofDescriptor.fields oneof) ->
     FieldDescriptor.has_ctype field = false ->
     kind_supported (GetRustFieldType (FieldDescriptor.type field)) = false ->
     RsTypeNameView ctx field =
       Fatal ("Unexpected field type: " ++ FieldDescriptor.type_name field)
     /\ RsTypeNameMut ctx field =
          Fatal ("Unexpected field type: " ++ FieldDescriptor.type_name field)
     /\ exists msg,
          Printer.run (2 + depth) (GenerateOneofDefinition ctx oneof) p =
          Some (Fatal msg))
  /\ (forall field, FieldDescriptor.has_ctype field = true ->
        RsTypeNameView ctx field = Ok "" /\ RsTypeNameMut ctx field = Ok "")
  /\ (kinds_in_closed_set oneof = true ->
      forall field, In field (OneofDescriptor.fields oneof) ->
        exists view_rs mut_rs,
          RsTypeNameView ctx field = Ok view_rs
          /\ RsTypeNameMut ctx field = Ok mut_rs).
Proof.
  split; [| split].
  - intros field Hin Hc Hk.
    destruct (mappers_fatal ctx field Hc Hk) as [Hview Hmut].
    split; [exact Hview |]. split; [exact Hmut |].
    destruct (for_each_field_fatal (OneofDescriptor.fields oneof)
                (fun field =>
                   rs_type <- RsTypeNameView ctx field ;;
                   if empty rs_type then Ok []
                   else Ok [Emit [("name", Text (OneofCaseRsName field));
                                  ("type", Text rs_type);
                                  ("number",
                                   Text (to_string
                                           (FieldDescriptor.number field)))]
                                 view_field_format])
                field
                ("Unexpected field type: " ++ FieldDescriptor.type_name field)
                Hin) as [first Hfirst].
    { now rewrite Hview. }
    fold (view_fields ctx oneof) in Hfirst.
    exists first. unfold Printer.run, GenerateOneofDefinition. cbn [map].
    unfold union_enums at 1. change (2 + depth) with (S (S depth)).
    expand_with tokenize_union_enums_format.
    rewrite Hfirst. reflexivity.
  - intros field Hc. split;
      [now apply RsTypeNameView_legacy | now apply RsTypeNameMut_legacy].
  - intros Hk field Hin.
    exists (view_type ctx field), (mut_type ctx field).
    pose proof (kinds_in_closed_set_In _ _ Hk Hin).
    split; [now apply RsTypeNameView_returns | now apply RsTypeNameMut_returns].
Qed.

End MapperTable.

(** ** The properties on the sample schema *)

(** Scenario A: the unions and the case enum of the group contact. *)
Example scenario_A :
  Printer.run 2 (GenerateOneofDefinition Sample.ctx Sample.contact)
              Sample.printer =
  Some (Ok (Printer.Build
              (union_enums_text
                 "Contact"
                 (variant_text "Email" "&'msg ::__pb::ProtoStr" "3"
                    ++ variant_text "Phone" "i64" "5")
                 "ContactMut"
                 (variant_text "Email" "::__pb::ProtoStrMut<'msg>" "3"
                    ++ variant_text "Phone" "::__pb::PrimitiveMut<'msg, i64>"
                         "5")
                 ++ case_enum_text "ContactCase"
                      (case_text "Email" "3" ++ case_text "Phone" "5"))
              (Printer.frames Sample.printer))).
Proof. vm_compute. reflexivity. Qed.

(** Scenario B: the single legacy field of payload is in the case enum and
    in neither union. *)
Example scenario_B :
  Printer.run 2 (GenerateOneofDefinition Sample.ctx Sample.payload)
              Sample.printer =
  Some (Ok (Printer.Build
              (union_enums_text "Payload" "" "PayloadMut" ""
                 ++ case_enum_text "PayloadCase" (case_text "Blob" "1"))
              (Printer.frames Sample.printer))).
Proof. vm_compute. reflexivity. Qed.

(** The case enum of the group mixed lists its legacy field blob, and a run
    of the definition emitter writes it after the unions. *)
Lemma case_enum_lists_every_field_mixed :
  (exists calls,
      cases (H := Sample.externals) Sample.mixed = Ok calls
      /\ Generated.case_enum_entries calls =
         [Some ("Email", 3%Z); Some ("Blob", 1%Z); Some ("Phone", 5%Z);
          Some ("not_set", 0%Z)])
  /\ Printer.run 2 (GenerateOneofDefinition Sample.ctx Sample.mixed)
                 Sample.printer =
     Some (Ok (Printer.Build
                 (Printer.output Sample.printer
                    ++ definition_expected Sample.ctx Sample.mixed)
                 (Printer.frames Sample.printer))).
Proof.
  destruct (case_enum_lists_every_field Sample.ctx Sample.mixed 0
              Sample.printer)
    as (calls & Hcalls & Hentries & _ & _ & _ & Hrun).
  split.
  - exists calls. split; [exact Hcalls | exact Hentries].
  - exact (Hrun eq_refl eq_refl).
Defined.

(** The view union of contact: Email, Phone, not_set, written by a run of
    the definition emitter. *)
Lemma view_union_variants_contact :
  (exists calls,
      view_fields Sample.ctx Sample.contact = Ok calls
      /\ Generated.union_variants calls =
         [Some ("Email", "&'msg ::__pb::ProtoStr", 3%Z);
          Some ("Phone", "i64", 5%Z);
          not_set_variant])
  /\ Printer.run 2 (GenerateOneofDefinition Sample.ctx Sample.contact)
                 Sample.printer =
     Some (Ok (Printer.Build
                 (union_enums_text
                    "Contact"
                    (variant_text "Email" "&'msg ::__pb::ProtoStr" "3"
                       ++ variant_text "Phone" "i64" "5")
                    "ContactMut"
                    (variant_text "Email" "::__pb::ProtoStrMut<'msg>" "3"
                       ++ variant_text "Phone"
                            "::__pb::PrimitiveMut<'msg, i64>" "5")
                    ++ case_enum_text "ContactCase"
                         (case_text "Email" "3" ++ case_text "Phone" "5"))
                 (Printer.frames Sample.printer))).
Proof.
  destruct (view_union_variants Sample.ctx Sample.contact 0 Sample.printer
              eq_refl eq_refl)
    as (calls & Hcalls & Hvariants & _ & _ & _ & _ & Hrun).
  split.
  - exists calls. split; [exact Hcalls | exact Hvariants].
  - exact Hrun.
Defined.


(** The group contact processed for the view accessor case: the mut union
    is written, the mutate accessor is not. *)
Lemma mut_union_emitted_for_view_case :
  exists p,
    Printer.run 3 (GenerateOneofDefinition Sample.ctx Sample.contact
                     ++ GenerateOneofAccessors Sample.ctx Sample.contact VIEW)
                Sample.printer = Some (Ok p)
    /\ emits_mut_union (H := Sample.externals) Sample.contact (Printer.output p) = true
    /\ emits_getter_mut (H := Sample.externals) Sample.contact (Printer.output p) = false.
Proof.
  eexists. split; [vm_compute; reflexivity |].
  split; vm_compute; reflexivity.
Qed.

Lemma mut_union_emitted_contact_view :
  (exists text,
      Printer.run 2 (GenerateOneofDefinition Sample.ctx Sample.contact)
                  Sample.printer =
      Some (Ok (Printer.Build (Printer.output Sample.printer ++ text)
                              (Printer.frames Sample.printer)))
      /\ emits_mut_union (H := Sample.externals) Sample.contact text = true)
  /\ (exists text read_accessor,
         Printer.run 3
           (GenerateOneofAccessors Sample.ctx Sample.contact VIEW)
           Sample.printer =
         Some (Ok (Printer.Build (Printer.output Sample.printer ++ text)
                                 (Printer.frames Sample.printer)))
         /\ text = accessors_text read_accessor "").
Proof.
  destruct (mut_union_emitted_whatever_the_accessor_case
              Sample.ctx Sample.contact VIEW 0 Sample.printer "Person"
              eq_refl eq_refl eq_refl)
    as [Hdefinition (text & Hrun & _ & Hview & _)].
  split; [exact Hdefinition |].
  destruct (Hview eq_refl) as [read_accessor Hread].
  exists text, read_accessor. split; [exact Hrun | exact Hread].
Defined.



(** A legacy field that is active in the kernel is reported as not_set. *)
Example legacy_member_reads_not_set :
  Generated.read_accessor Sample.ctx Sample.mixed 1 = Ok Generated.NotSet.
Proof. reflexivity. Qed.

(** With phone active in the kernel the mutate accessor of contact unwraps
    the mutator of phone. *)
Lemma mutate_unwrap_never_panics_contact :
  Generated.mutate_unwrap Sample.ctx Sample.contact Sample.phone_active =
  Ok Generated.Unwrapped_ok.
Proof.
  exact (proj1 (mutate_unwrap_never_panics Sample.ctx Sample.contact
                  Sample.phone_active eq_refl eq_refl eq_refl eq_refl)).
Defined.

(** The mappers on blob (legacy bytes), email (string) and phone (int64). *)
Lemma type_mappers_table_sample :
  (RsTypeNameView Sample.ctx Sample.blob = Ok ""
   /\ RsTypeNameMut Sample.ctx Sample.blob = Ok "")
  /\ RsTypeNameView Sample.ctx Sample.email = Ok "&'msg ::__pb::ProtoStr"
  /\ RsTypeNameView Sample.ctx Sample.phone = Ok "i64".
Proof.
  split; [| split].
  - exact (proj1 (type_mappers_table Sample.ctx Sample.blob) eq_refl).
  - exact (proj1 (proj2 (proj2 (proj2 (type_mappers_table Sample.ctx
                                         Sample.email) eq_refl)))
                 eq_refl).
  - exact (proj1 (proj2 (type_mappers_table Sample.ctx Sample.phone) eq_refl)
                 eq_refl).
Defined.

(** A legacy field whose kind is outside the closed set: both mappers answer
    unsupported and every generator runs to its end. *)
Lemma legacy_field_of_unlisted_kind_is_not_fatal :
  kind_supported
    (GetRustFieldType (Externals := Sample.externals)
       (FieldDescriptor.type Sample.odd)) = false
  /\ RsTypeNameView Sample.ctx Sample.odd = Ok ""
  /\ RsTypeNameMut Sample.ctx Sample.odd = Ok ""
  /\ exists p,
       Printer.run 3 (generate_all Sample.ctx Sample.odd_group MUT)
                   Sample.printer = Some (Ok p).
Proof.
  repeat split. eexists. vm_compute. reflexivity.
Qed.

(** The same field without the legacy flag aborts the generation. *)
Lemma unlisted_kind_is_fatal_sample :
  (RsTypeNameView Sample.ctx Sample.odd_plain =
     Fatal "Unexpected field type: odd"
   /\ RsTypeNameMut Sample.ctx Sample.odd_plain =
        Fatal "Unexpected field type: odd"
   /\ exists msg,
        Printer.run 2 (GenerateOneofDefinition Sample.ctx
                         Sample.odd_plain_group)
                    Sample.printer = Some (Fatal msg))
  /\ (exists view_rs mut_rs,
         RsTypeNameView Sample.ctx Sample.phone = Ok view_rs
         /\ RsTypeNameMut Sample.ctx Sample.phone = Ok mut_rs).
Proof.
  split.
  - exact (proj1 (unlisted_kind_is_fatal_unless_legacy
                    Sample.ctx Sample.odd_plain_group 0 Sample.printer)
                 Sample.odd_plain (or_intror (or_introl eq_refl))
                 eq_refl eq_refl).
  - exact (proj2 (proj2 (unlisted_kind_is_fatal_unless_legacy
                           Sample.ctx Sample.contact 0 Sample.printer))
                 eq_refl Sample.phone (or_intror (or_introl eq_refl))).
Defined.

(** The declaration and the thunk for contact in the message Person. *)
Lemma thunk_declared_and_defined_contact :
  Printer.run 1 (GenerateOneofExternC Sample.ctx Sample.contact)
              Sample.printer =
  Some (Ok (Printer.Build
              (extern_c_text "Person" "::__pb::__internal" "ContactCase"
                 "__rust_proto_thunk__Person_case_contact")
              (Printer.frames Sample.printer)))
  /\ Printer.run 1 (GenerateOneofThunkCc Sample.ctx Sample.contact)
                 Sample.printer =
     Some (Ok (Printer.Build
                 (thunk_cc_text "::Person" "ContactCase"
                    "__rust_proto_thunk__Person_case_contact" "contact")
                 (Printer.frames Sample.printer))).
Proof.
  exact (thunk_declared_and_defined Sample.ctx Sample.contact 0
           Sample.printer "Person" "::__pb::__internal" eq_refl eq_refl).
Defined.

(** * Further properties of the generators *)

(** ** The mutate accessor *)




Lemma positive_number_nonzero (oneof : OneofDescriptor.t)
    (field : FieldDescriptor.t) :
  numbers_positive oneof = true ->
  In field (OneofDescriptor.fields oneof) ->
  FieldDescriptor.number field <> 0%Z.
Proof.
  unfold numbers_positive. rewrite forallb_forall. intros Hpos Hin.
  specialize (Hpos field Hin). apply Z.ltb_lt in Hpos. lia.
Qed.

Section MutateAccessor.
Context `{Externals}.



End MutateAccessor.

(** ** Arms, variants and entries *)


Section ArmsAndVariants.
Context `{Externals}.


(** X4: a group all of whose fields carry the legacy flag, whatever their
    kinds, and so also a group without fields, gets unions with the variant
    not_set alone and accessors without arms: every tag reads as not_set,
    while the case enum still lists every field. *)
Theorem legacy_group_has_no_variants (ctx : Context)
    (oneof : OneofDescriptor.t) (depth : nat)
    (frames : list Printer.Frame) :
  forallb FieldDescriptor.has_ctype (OneofDescriptor.fields oneof) = true ->
  view_fields ctx oneof = Ok []
  /\ mut_fields ctx oneof = Ok []
  /\ view_cases ctx oneof = Ok []
  /\ mut_cases ctx oneof = Ok []
  /\ Printer.expand (2 + depth) frames (union_enums ctx oneof) =
     Some (Ok (union_enums_text (OneofViewEnumRsName oneof) ""
                                (OneofMutEnumRsName oneof) ""))
  /\ (forall tag,
        Generated.read_accessor ctx oneof tag = Ok Generated.NotSet
        /\ Generated.mutate_accessor ctx oneof tag = Ok Generated.NotSet)
  /\ cases oneof = Ok (map case_call (OneofDescriptor.fields oneof)).
Proof.
  intros Hlegacy.
  assert (Hnil : flat_map (fun _ : FieldDescriptor.t => @nil EmitCall)
                          (OneofDescriptor.fields oneof) = []).
  { clear Hlegacy. induction (OneofDescriptor.fields oneof) as [|f l IH];
      [reflexivity | exact IH]. }
  rewrite forallb_forall in Hlegacy.
  assert (Hvf : view_fields ctx oneof = Ok []).
  { unfold view_fields.
    rewrite (for_each_field_flat_map _ _ (fun _ => [])); [now rewrite Hnil |].
    intros field Hin. now rewrite RsTypeNameView_legacy by now apply Hlegacy. }
  assert (Hmf : mut_fields ctx oneof = Ok []).
  { unfold mut_fields.
    rewrite (for_each_field_flat_map _ _ (fun _ => [])); [now rewrite Hnil |].
    intros field Hin. now rewrite RsTypeNameMut_legacy by now apply Hlegacy. }
  assert (Hvc : view_cases ctx oneof = Ok []).
  { unfold view_cases.
    rewrite (for_each_field_flat_map _ _ (fun _ => [])); [now rewrite Hnil |].
    intros field Hin. now rewrite RsTypeNameView_legacy by now apply Hlegacy. }
  assert (Hmc : mut_cases ctx oneof = Ok []).
  { unfold mut_cases.
    rewrite (for_each_field_flat_map _ _ (fun _ => [])); [now rewrite Hnil |].
    intros field Hin. now rewrite RsTypeNameMut_legacy by now apply Hlegacy. }
  repeat split; try assumption.
  - unfold union_enums. change (2 + depth) with (S (S depth)).
    expand_with tokenize_union_enums_format.
    rewrite Hvf, Hmf. reflexivity.
  - unfold Generated.read_accessor. rewrite cases_map, Hvc. reflexivity.
  - unfold Generated.mutate_accessor. rewrite cases_map, Hmc. reflexivity.
  - apply cases_map.
Qed.

(** X5: when the fields of a group have distinct positive numbers, no two
    entries of the case enum share a discriminant, the closing entry not_set
    with its 0 included. *)
Theorem case_enum_discriminants_distinct (oneof : OneofDescriptor.t) :
  distinct_numbers oneof = true ->
  numbers_positive oneof = true ->
  exists calls entries,
    cases oneof = Ok calls
    /\ Generated.case_enum_entries calls = map Some entries
    /\ map fst entries =
       (map OneofCaseRsName (OneofDescriptor.fields oneof) ++ ["not_set"])%list
    /\ NoDup (map snd entries).
Proof.
  intros Hnumbers Hpositive.
  set (fields := OneofDescriptor.fields oneof).
  exists (map case_call fields).
  exists (map (fun field =>
                 (OneofCaseRsName field, FieldDescriptor.number field))
              fields ++ [("not_set", 0%Z)])%list.
  split; [apply cases_map |]. split; [| split].
  - unfold Generated.case_enum_entries.
    rewrite map_app, !map_map. f_equal.
    apply map_ext. intros field. apply entry_case_call.
  - rewrite map_app, map_map. reflexivity.
  - rewrite map_app, map_map. cbn [map snd].
    apply NoDup_app.
    + apply (distinctb_NoDup Z.eqb); [apply Z.eqb_eq | exact Hnumbers].
    + repeat constructor. intros [].
    + intros n Hn [<- | []]. apply in_map_iff in Hn.
      destruct Hn as (field & Hzero & Hin).
      now apply (positive_number_nonzero oneof field).
Qed.

End ArmsAndVariants.

(** ** The first field that makes a mapper fatal *)

Lemma for_each_field_first_fatal (before after : list FieldDescriptor.t)
    (field : FieldDescriptor.t)
    (round : FieldDescriptor.t -> Result (list EmitCall)) (msg : string) :
  (forall g, In g before -> exists calls, round g = Ok calls) ->
  round field = Fatal msg ->
  for_each_field (before ++ field :: after) round = Fatal msg.
Proof.
  induction before as [|g before IH]; intros Hbefore Hfatal.
  - cbn [app for_each_field]. now rewrite Hfatal.
  - cbn [app for_each_field].
    destruct (Hbefore g (or_introl eq_refl)) as [calls Hcalls].
    rewrite Hcalls. cbn [bind].
    rewrite IH; [reflexivity | | exact Hfatal].
    intros g' Hg'. apply Hbefore. now right.
Qed.

Section FirstFatal.
Context `{Externals}.

Lemma mapper_returns_ok (ctx : Context) (field : FieldDescriptor.t) :
  mapper_returns field = true ->
  exists view_rs mut_rs,
    RsTypeNameView ctx field = Ok view_rs
    /\ RsTypeNameMut ctx field = Ok mut_rs.
Proof.
  unfold mapper_returns. intros Hret.
  destruct (FieldDescriptor.has_ctype field) eqn:Hc.
  - exists "", "". split;
      [now apply RsTypeNameView_legacy | now apply RsTypeNameMut_legacy].
  - simpl in Hret. exists (view_type ctx field), (mut_type ctx field).
    split; [now apply RsTypeNameView_returns | now apply RsTypeNameMut_returns].
Qed.

(** X6: generation aborts at the first field, in declaration order, that has
    no legacy flag and a kind outside the closed set: the four loops over
    the fields end with the message that names the type of that field, and
    so do the generation of the definitions and, for every accessor case,
    the generation of the accessors. *)
Theorem first_unlisted_kind_aborts (ctx : Context) (oneof : OneofDescriptor.t)
    (before after : list FieldDescriptor.t) (field : FieldDescriptor.t)
    (depth : nat) (p : Printer.t) (Msg : string) :
  OneofDescriptor.fields oneof = (before ++ field :: after)%list ->
  forallb mapper_returns before = true ->
  mapper_returns field = false ->
  Printer.lookup "Msg" (Printer.frames p) = Some (Text Msg) ->
  view_fields ctx oneof = Fatal (unexpected_field_type field)
  /\ mut_fields ctx oneof = Fatal (unexpected_field_type field)
  /\ view_cases ctx oneof = Fatal (unexpected_field_type field)
  /\ mut_cases ctx oneof = Fatal (unexpected_field_type field)
  /\ Printer.run (2 + depth) (GenerateOneofDefinition ctx oneof) p =
     Some (Fatal (unexpected_field_type field))
  /\ (forall accessor_case,
        Printer.run (3 + depth)
          (GenerateOneofAccessors ctx oneof accessor_case) p =
        Some (Fatal (unexpected_field_type field))).
Proof.
  intros Hfields Hbefore Hfield HMsg.
  rewrite forallb_forall in Hbefore.
  unfold mapper_returns in Hfield. apply orb_false_iff in Hfield.
  destruct Hfield as [Hc Hk].
  destruct (mappers_fatal ctx field Hc Hk) as [Hview Hmut].
  fold (unexpected_field_type field) in Hview, Hmut.
  assert (Hvf : view_fields ctx oneof = Fatal (unexpected_field_type field)).
  { unfold view_fields. rewrite Hfields.
    apply for_each_field_first_fatal; [| now rewrite Hview].
    intros g Hg. destruct (mapper_returns_ok ctx g (Hbefore g Hg))
      as (view_rs & _ & Hg_view & _).
    rewrite Hg_view. cbn [bind]. destruct (empty view_rs); eauto. }
  assert (Hmf : mut_fields ctx oneof = Fatal (unexpected_field_type field)).
  { unfold mut_fields. rewrite Hfields.
    apply for_each_field_first_fatal; [| now rewrite Hmut].
    intros g Hg. destruct (mapper_returns_ok ctx g (Hbefore g Hg))
      as (_ & mut_rs & _ & Hg_mut).
    rewrite Hg_mut. cbn [bind]. destruct (empty mut_rs); eauto. }
  assert (Hvc : view_cases ctx oneof = Fatal (unexpected_field_type field)).
  { unfold view_cases. rewrite Hfields.
    apply for_each_field_first_fatal; [| now rewrite Hview].
    intros g Hg. destruct (mapper_returns_ok ctx g (Hbefore g Hg))
      as (view_rs & _ & Hg_view & _).
    rewrite Hg_view. cbn [bind]. destruct (empty view_rs); eauto. }
  assert (Hmc : mut_cases ctx oneof = Fatal (unexpected_field_type field)).
  { unfold mut_cases. rewrite Hfields.
    apply for_each_field_first_fatal; [| now rewrite Hmut].
    intros g Hg. destruct (mapper_returns_ok ctx g (Hbefore g Hg))
      as (_ & mut_rs & _ & Hg_mut).
    rewrite Hg_mut. cbn [bind]. destruct (empty mut_rs); eauto. }
  repeat split; try assumption.
  - unfold Printer.run, GenerateOneofDefinition. cbn [map].
    unfold union_enums. change (2 + depth) with (S (S depth)).
    expand_with tokenize_union_enums_format.
    rewrite Hvf. reflexivity.
  - intros accessor_case.
    unfold Printer.run, GenerateOneofAccessors. cbn [map].
    change (3 + depth) with (S (S (S depth))).
    expand_with tokenize_accessors_format.
    unfold getter. cbn [Printer.expand_body map].
    expand_with tokenize_getter_format.
    rewrite HMsg, Hvc. reflexivity.
Qed.

End FirstFatal.

(** ** Which fields the loops skip *)

Section SkippedFields.
Context `{Externals}.

Lemma view_type_empty_emitted (ctx : Context) (field : FieldDescriptor.t) :
  kind_supported (GetRustFieldType (FieldDescriptor.type field)) = true ->
  empty (view_type ctx field) = negb (view_emitted ctx field).
Proof.
  intros Hk. unfold view_type, RsTypeNameView, view_emitted, bindable.
  destruct (FieldDescriptor.has_ctype field); [reflexivity |].
  destruct (GetRustFieldType (FieldDescriptor.type field));
    try discriminate; try reflexivity;
    cbn; now destruct (empty (RsTypePath ctx field)).
Qed.

(** X7: with every kind in the closed set, the loops of the mut union skip
    exactly the fields with the legacy flag, while the loops of the view
    union and of the read accessor also skip a field of a primitive kind for
    which the type-path resolver returns the empty string: such a field is a
    variant of the mut union and of no view union.  Every field the view
    loops keep, the mut loops keep. *)
Theorem view_loops_skip_unnamed_primitives (ctx : Context)
    (oneof : OneofDescriptor.t) :
  kinds_in_closed_set oneof = true ->
  let fields := OneofDescriptor.fields oneof in
  view_fields ctx oneof =
    Ok (map (view_field_call ctx) (filter (view_emitted ctx) fields))
  /\ view_cases ctx oneof =
       Ok (map (view_case_call ctx) (filter (view_emitted ctx) fields))
  /\ mut_fields ctx oneof =
       Ok (map (mut_field_call ctx) (filter bindable fields))
  /\ mut_cases ctx oneof =
       Ok (map (mut_case_call ctx) (filter bindable fields))
  /\ (forall field, view_emitted ctx field = true -> bindable field = true)
  /\ (forall field, In field fields -> bindable field = true ->
        kind_primitive (GetRustFieldType (FieldDescriptor.type field)) = true ->
        RsTypePath ctx field = "" ->
        view_emitted ctx field = false).
Proof.
  intros Hk fields. split; [| split; [| split; [| split; [| split]]]].
  - unfold view_fields.
    rewrite (for_each_field_flat_map _ _
               (fun field => if view_emitted ctx field
                             then [view_field_call ctx field] else [])).
    + now rewrite flat_map_filter.
    + intros field Hin.
      pose proof (kinds_in_closed_set_In _ _ Hk Hin) as Hkf.
      rewrite (RsTypeNameView_returns ctx field) by assumption.
      cbn [bind]. rewrite view_type_empty_emitted by assumption.
      now destruct (view_emitted ctx field).
  - unfold view_cases.
    rewrite (for_each_field_flat_map _ _
               (fun field => if view_emitted ctx field
                             then [view_case_call ctx field] else [])).
    + now rewrite flat_map_filter.
    + intros field Hin.
      pose proof (kinds_in_closed_set_In _ _ Hk Hin) as Hkf.
      rewrite (RsTypeNameView_returns ctx field) by assumption.
      cbn [bind]. rewrite view_type_empty_emitted by assumption.
      now destruct (view_emitted ctx field).
  - now apply mut_fields_map.
  - now apply mut_cases_map.
  - intros field Hemitted. unfold view_emitted in Hemitted.
    now apply andb_true_iff in Hemitted.
  - intros field Hin Hb Hprim Hpath. unfold view_emitted.
    rewrite Hb, Hprim, Hpath. reflexivity.
Qed.

End SkippedFields.

(** ** Variables of the enclosing calls *)

Lemma for_each_field_Forall (P : EmitCall -> Prop)
    (fields : list FieldDescriptor.t)
    (round : FieldDescriptor.t -> Result (list EmitCall)) :
  (forall field calls, round field = Ok calls -> Forall P calls) ->
  forall calls, for_each_field fields round = Ok calls -> Forall P calls.
Proof.
  intros Hround. induction fields as [|field rest IH]; intros calls Hcalls.
  - injection Hcalls as <-. constructor.
  - cbn [for_each_field] in Hcalls.
    destruct (round field) as [head | msg] eqn:Hhead; [| discriminate].
    cbn [bind] in Hcalls.
    destruct (for_each_field rest round) as [more | msg]; [| discriminate].
    cbn [bind] in Hcalls. injection Hcalls as <-.
    apply Forall_app. split; [now apply (Hround field) | now apply IH].
Qed.

(** A callback whose calls expand alike under any two frame stacks expands
    alike itself. *)
Lemma expand_body_frames (body : Result (list EmitCall)) (depth : nat)
    (frames1 frames2 : list Printer.Frame) :
  (forall calls, body = Ok calls ->
     Forall (fun call =>
               Printer.expand depth frames1 call =
               Printer.expand depth frames2 call) calls) ->
  Printer.expand_body (Printer.expand depth frames1) body =
  Printer.expand_body (Printer.expand depth frames2) body.
Proof.
  intros Hcalls. destruct body as [calls | msg]; [| reflexivity].
  cbn [Printer.expand_body]. f_equal.
  specialize (Hcalls calls eq_refl).
  induction Hcalls as [|call calls Hcall _ IH]; [reflexivity |].
  cbn [map]. now rewrite Hcall, IH.
Qed.

Lemma expand_variant_line_frames (name type number : string) (depth : nat)
    (frames1 frames2 : list Printer.Frame) :
  Printer.expand depth frames1
    (Emit [("name", Text name); ("type", Text type); ("number", Text number)]
          view_field_format) =
  Printer.expand depth frames2
    (Emit [("name", Text name); ("type", Text type); ("number", Text number)]
          view_field_format).
Proof.
  destruct depth; [reflexivity |].
  rewrite !expand_S, tokenize_view_field_format. reflexivity.
Qed.

Lemma expand_case_line_frames (name number : string) (depth : nat)
    (frames1 frames2 : list Printer.Frame) :
  Printer.expand depth frames1
    (Emit [("name", Text name); ("number", Text number)] case_format) =
  Printer.expand depth frames2
    (Emit [("name", Text name); ("number", Text number)] case_format).
Proof.
  destruct depth; [reflexivity |].
  rewrite !expand_S, tokenize_case_format. reflexivity.
Qed.

Section EnclosingFrames.
Context `{Externals}.

Lemma view_fields_frames (ctx : Context) (oneof : OneofDescriptor.t)
    (depth : nat) (frames1 frames2 : list Printer.Frame) :
  Printer.expand_body (Printer.expand depth frames1) (view_fields ctx oneof) =
  Printer.expand_body (Printer.expand depth frames2) (view_fields ctx oneof).
Proof.
  apply expand_body_frames. unfold view_fields.
  apply for_each_field_Forall. intros field calls.
  destruct (RsTypeNameView ctx field) as [rs_type | msg];
    cbn [bind]; [| discriminate].
  destruct (empty rs_type); intros [= <-]; repeat constructor.
  apply expand_variant_line_frames.
Qed.

Lemma mut_fields_frames (ctx : Context) (oneof : OneofDescriptor.t)
    (depth : nat) (frames1 frames2 : list Printer.Frame) :
  Printer.expand_body (Printer.expand depth frames1) (mut_fields ctx oneof) =
  Printer.expand_body (Printer.expand depth frames2) (mut_fields ctx oneof).
Proof.
  apply expand_body_frames. unfold mut_fields.
  apply for_each_field_Forall. intros field calls.
  destruct (RsTypeNameMut ctx field) as [rs_type | msg];
    cbn [bind]; [| discriminate].
  destruct (empty rs_type); intros [= <-]; repeat constructor.
  apply expand_variant_line_frames.
Qed.

Lemma cases_frames (oneof : OneofDescriptor.t)
    (depth : nat) (frames1 frames2 : list Printer.Frame) :
  Printer.expand_body (Printer.expand depth frames1) (cases oneof) =
  Printer.expand_body (Printer.expand depth frames2) (cases oneof).
Proof.
  apply expand_body_frames. unfold cases.
  apply for_each_field_Forall. intros field calls [= <-].
  repeat constructor. apply expand_case_line_frames.
Qed.

(** X8: the definitions and the C++ thunk mention no variable of the calls
    that enclose the generator: every variable of their formats is bound by
    the call itself and hides a variable of the same name bound outside, so
    each of their calls expands alike, to the same text or the same fatal
    end, under any two stacks of enclosing frames. *)
Theorem definition_and_thunk_ignore_enclosing_frames (ctx : Context)
    (oneof : OneofDescriptor.t) (depth : nat)
    (frames1 frames2 : list Printer.Frame) :
  map (Printer.expand depth frames1)
      (GenerateOneofDefinition ctx oneof ++ GenerateOneofThunkCc ctx oneof) =
  map (Printer.expand depth frames2)
      (GenerateOneofDefinition ctx oneof ++ GenerateOneofThunkCc ctx oneof).
Proof.
  unfold GenerateOneofDefinition, GenerateOneofThunkCc. cbn [app map].
  destruct depth as [|depth]; [reflexivity |].
  assert (Hunions :
            Printer.expand (S depth) frames1 (union_enums ctx oneof) =
            Printer.expand (S depth) frames2 (union_enums ctx oneof)).
  { unfold union_enums.
    rewrite !expand_S, tokenize_union_enums_format.
    cbn [map Printer.expand_chunk Printer.lookup Printer.lookup_frame
         String.eqb Ascii.eqb Bool.eqb].
    rewrite (view_fields_frames ctx oneof depth _
               ([("view_enum_name", Text (OneofViewEnumRsName oneof));
                 ("mut_enum_name", Text (OneofMutEnumRsName oneof));
                 ("view_fields", Callback (view_fields ctx oneof));
                 ("mut_fields", Callback (mut_fields ctx oneof))]
                  :: frames2)).
    rewrite (mut_fields_frames ctx oneof depth _
               ([("view_enum_name", Text (OneofViewEnumRsName oneof));
                 ("mut_enum_name", Text (OneofMutEnumRsName oneof));
                 ("view_fields", Callback (view_fields ctx oneof));
                 ("mut_fields", Callback (mut_fields ctx oneof))]
                  :: frames2)).
    reflexivity. }
  assert (Hcases :
            Printer.expand (S depth) frames1 (case_enum oneof) =
            Printer.expand (S depth) frames2 (case_enum oneof)).
  { unfold case_enum.
    rewrite !expand_S, tokenize_case_enum_format.
    cbn [map Printer.expand_chunk Printer.lookup Printer.lookup_frame
         String.eqb Ascii.eqb Bool.eqb].
    rewrite (cases_frames oneof depth _
               ([("case_enum_name", Text (OneofCaseEnumRsName oneof));
                 ("cases", Callback (cases oneof))] :: frames2)).
    reflexivity. }
  assert (Hthunk :
            forall call, In call (GenerateOneofThunkCc ctx oneof) ->
              Printer.expand (S depth) frames1 call =
              Printer.expand (S depth) frames2 call).
  { intros call [<- | []].
    rewrite !expand_S, tokenize_thunk_cc_format. reflexivity. }
  rewrite Hunions, Hcases.
  rewrite (Hthunk _ (or_introl eq_refl)). reflexivity.
Qed.

End EnclosingFrames.

(** ** The further properties on the sample schema *)



(** A group whose only field is legacy and of a kind outside the closed
    set. *)
Lemma legacy_group_has_no_variants_odd :
  view_fields Sample.ctx Sample.odd_group = Ok []
  /\ mut_fields Sample.ctx Sample.odd_group = Ok []
  /\ Generated.read_accessor Sample.ctx Sample.odd_group 2 =
       Ok Generated.NotSet.
Proof.
  destruct (legacy_group_has_no_variants Sample.ctx Sample.odd_group 0 []
              eq_refl)
    as (Hview & Hmut & _ & _ & _ & Htags & _).
  split; [exact Hview |]. split; [exact Hmut |].
  exact (proj1 (Htags 2%Z)).
Defined.

(** The discriminants 3, 5 and 0 of the case enum of contact. *)
Lemma case_enum_discriminants_distinct_contact :
  exists calls entries,
    cases (H := Sample.externals) Sample.contact = Ok calls
    /\ Generated.case_enum_entries calls = map Some entries
    /\ map fst entries = ["Email"; "Phone"; "not_set"]
    /\ NoDup (map snd entries).
Proof.
  exact (case_enum_discriminants_distinct (H := Sample.externals)
           Sample.contact eq_refl eq_refl).
Defined.

(** The group with email before a field of an unlisted kind. *)
Lemma first_unlisted_kind_aborts_sample :
  Printer.run 2 (GenerateOneofDefinition Sample.ctx Sample.odd_plain_group)
              Sample.printer =
    Some (Fatal "Unexpected field type: odd")
  /\ Printer.run 3
       (GenerateOneofAccessors Sample.ctx Sample.odd_plain_group VIEW)
       Sample.printer =
     Some (Fatal "Unexpected field type: odd").
Proof.
  destruct (first_unlisted_kind_aborts Sample.ctx Sample.odd_plain_group
              [Sample.email] [] Sample.odd_plain 0 Sample.printer "Person"
              eq_refl eq_refl eq_refl eq_refl)
    as (_ & _ & _ & _ & Hdefinition & Haccessors).
  split; [exact Hdefinition | exact (Haccessors VIEW)].
Defined.

(** With a resolver that names no type, phone (int64) is a variant of the
    mut union of contact and not of its view union. *)
Lemma view_loops_skip_unnamed_primitives_contact :
  view_fields Pathless.ctx Sample.contact =
    Ok [view_field_call Pathless.ctx Sample.email]
  /\ mut_fields Pathless.ctx Sample.contact =
       Ok [mut_field_call Pathless.ctx Sample.email;
           mut_field_call Pathless.ctx Sample.phone].
Proof.
  destruct (view_loops_skip_unnamed_primitives Pathless.ctx Sample.contact
              eq_refl)
    as (Hview & _ & Hmut & _).
  split; [exact Hview | exact Hmut].
Defined.
